(** * watchtox: the lottery ledger, its JSON store and its write queue

    A shallow embedding of [controllers/lotteryController.js] and
    [utils/readWriteJSON.js], of what runs in front of the handlers
    ([authenticate] of [routes/auth.js], [adminOnly] and the routes of
    [routes/lottery.js], [refreshSession] of [authMiddleware.js]) and of the
    user store of [controllers/userController.js], with the properties
    checked against them.

    Layout:
    - the data model ([Draw], [Ticket], [DB], [User]);
    - the pure helpers ([generateTicketNumbers], [countMatches],
      [prizeFromMatches], [isAdmin]);
    - asynchronous code as a small free monad [prog] whose two effects are the
      two places where a handler yields: [await fs.readFile] and
      [await pendingWrite];
    - the handlers of the ledger, the middleware and the routes;
    - two semantics of [prog]: [exec], one request running alone, and
      [step], the event loop interleaving any number of requests;
    - the user store ([Users]), with its own file and write chain;
    - the theorems. *)

From Stdlib Require Import ZArith QArith Qround.
From stdpp Require Import base decidable option list sorting gmap sets strings pretty.

Local Open Scope Z_scope.

(* ================================================================== *)
(** ** Data model *)

(** [{id, numbers, date}] *)
Module Draw.
Record t := mk { id : string; numbers : list Z; date : string }.
End Draw.

(** [{id, userId, numbers, drawId, purchasedAt}]; [drawId] is [null] while
    the ticket is pending. *)
Module Ticket.
Record t := mk {
  id : string;
  userId : string;
  numbers : list Z;
  drawId : option string;
  purchasedAt : string
}.
End Ticket.

(** The whole document of [data/lottery.json]. *)
Record DB := mkDB { draws : list Draw.t; tickets : list Ticket.t }.

(** [req.user]: [{id, role?, email?}]; a field that is absent reads
    [undefined], here [None]. *)
Module User.
Record t := mk { id : option string; role : option string; email : option string }.
End User.

(** JavaScript truthiness of a value that is a string or [undefined]. *)
Definition truthy (v : option string) : bool :=
  match v with
  | Some s => negb (String.eqb s "")
  | None => false
  end.

(* ================================================================== *)
(** ** [Set] of numbers

    A JavaScript [Set] iterates in insertion order and [add] ignores a value
    it already holds: a list without repetition, newest last. *)
Module NumSet.
Definition t := list Z.
Definition empty : t := [].
Definition has (s : t) (x : Z) : bool := bool_decide (x ∈ s).
Definition add (x : Z) (s : t) : t := if has s x then s else s ++ [x].
Definition size (s : t) : nat := length s.
(** [new Set(iterable)] *)
Definition of_list (l : list Z) : t := foldl (λ s x, add x s) empty l.
(** [Array.from(set)] *)
Definition to_list (s : t) : list Z := s.
End NumSet.

(* ================================================================== *)
(** ** Configurable limits *)

(** [Number(process.env.X) || dflt] for a variable that is unset ([NaN]) or
    holds an integer: [0] and [NaN] are falsy and give the default. *)
Definition limitFromEnv (v : option Z) (dflt : Z) : Z :=
  match v with
  | Some 0 | None => dflt
  | Some n => n
  end.

Record Config := mkConfig {
  MAX_TICKETS_PER_DRAW : Z;
  MAX_TICKETS_PER_USER : Z
}.

Definition configFromEnv (perDraw perUser : option Z) : Config :=
  {| MAX_TICKETS_PER_DRAW := limitFromEnv perDraw 1000;
     MAX_TICKETS_PER_USER := limitFromEnv perUser 100 |}.

(* ================================================================== *)
(** ** Pure helpers of the lottery controller *)

(** A value of [Math.random()]: a number in [[0,1)].  Every double of that
    interval is a rational; the product with 49 is taken exactly (rounding
    to nearest cannot reach 49 from below 1, so [Math.floor] lands in the
    same range [0..48]). *)
Module Math.
Record random := mkRandom {
  value : Q;
  value_range : Qle_bool 0 value && negb (Qle_bool 1 value) = true
}.
Definition floor (q : Q) : Z := Qfloor q.
End Math.

(** [Math.floor(Math.random() * 49) + 1] *)
Definition pick (r : Math.random) : Z :=
  Math.floor (Math.value r * 49)%Q + 1.

(** The loop [while (numbers.size < 6) numbers.add(...)], over the values
    [Math.random()] yields, in order.  [None]: the loop is still running
    when these values are used up. *)
Fixpoint generateLoop (numbers : NumSet.t) (rnd : list Math.random)
  : option NumSet.t :=
  if bool_decide (NumSet.size numbers < 6)%nat then
    match rnd with
    | [] => None
    | r :: rnd' => generateLoop (NumSet.add (pick r) numbers) rnd'
    end
  else Some numbers.

(** [Array.prototype.sort((a, b) => a - b)]: ascending numeric order. *)
Definition sortNumbers (l : list Z) : list Z := merge_sort Z.le l.

Definition generateTicketNumbers (rnd : list Math.random) : option (list Z) :=
  numbers ← generateLoop NumSet.empty rnd;
  Some (sortNumbers (NumSet.to_list numbers)).

Definition countMatches (ticketNumbers drawNumbers : list Z) : nat :=
  let drawSet := NumSet.of_list drawNumbers in
  length (filter (λ n, NumSet.has drawSet n) ticketNumbers).

Definition prizeFromMatches (matches : nat) : string :=
  match matches with
  | 6%nat => "Jackpot!"
  | 5%nat => "Big prize"
  | 4%nat => "Small prize"
  | _ => "No prize"
  end.

(** [String.prototype.endsWith] *)
Definition endsWith (s suffix : string) : bool :=
  let n := String.length s in
  let m := String.length suffix in
  (m <=? n)%nat && String.eqb (String.substring (n - m)%nat m s) suffix.

Definition isAdmin (user : option User.t) : bool :=
  match user with
  | None => false
  | Some u =>
      if truthy (User.role u) then bool_decide (User.role u = Some "admin")
      else
        match User.email u with
        | Some e => endsWith e "@admin.com"
        | None => false
        end
  end.

(** The guard of [routes/lottery.js] and [routes/user.js] in front of the
    admin routes:
    [(user && user.role === 'admin') ||
     (user && typeof user.email === 'string' && user.email.endsWith('@admin.com'))]. *)
Definition adminOnly (user : option User.t) : bool :=
  match user with
  | None => false
  | Some u =>
      bool_decide (User.role u = Some "admin")
      || match User.email u with
         | Some e => endsWith e "@admin.com"
         | None => false
         end
  end.

(* ================================================================== *)
(** ** [utils/readWriteJSON.js] and the file behind it *)

(** What can be thrown: an error of [fs] with its [code], or the
    [SyntaxError] of [JSON.parse]. *)
Inductive exn :=
| FsError (code : string)
| SyntaxError.

(** The text of the file, by what [JSON.parse] makes of it.  The file is
    only ever written by [writeJSON], so a text that parses is [null] or a
    ledger document. *)
Inductive content :=
| Malformed
| JsonNull
| JsonDoc (db : DB).

Definition JSON_parse (raw : content) : exn + option DB :=
  match raw with
  | Malformed => inl SyntaxError
  | JsonNull => inr None
  | JsonDoc db => inr (Some db)
  end.

(** [data/lottery.json]: [file] is [None] while the file does not exist;
    [written] records every document [fs.writeFile] has stored, oldest
    first. *)
Record Disk := mkDisk { file : option content; written : list DB }.

(** [fs.readFile(path, 'utf8')]; [fault] is the code of the error the
    operating system answers with (EACCES, EIO, ...), if it does. *)
Definition fs_readFile (fault : option string) (d : Disk) : exn + content :=
  match fault with
  | Some code => inl (FsError code)
  | None =>
      match file d with
      | None => inl (FsError "ENOENT")
      | Some raw => inr raw
      end
  end.

(** State of a settled promise. *)
Inductive settled :=
| Fulfilled
| Rejected (e : exn).

(** [writeJSON(path, data)]: [mkdir], [JSON.stringify], [writeFile]; an
    error of either call is re-thrown. *)
Definition writeJSON (fault : option string) (data : DB) (d : Disk)
  : Disk * settled :=
  match fault with
  | Some code => (d, Rejected (FsError code))
  | None => (mkDisk (Some (JsonDoc data)) (written d ++ [data]), Fulfilled)
  end.

(** [p.then(onFulfilled)] once [p] has settled: the callback runs only when
    [p] is fulfilled, and the new promise takes the state of what the
    callback returns; a rejection of [p] goes to the new promise and the
    callback is never called. *)
Definition then_ (p : settled) (onFulfilled : Disk → Disk * settled) (d : Disk)
  : Disk * settled :=
  match p with
  | Fulfilled => onFulfilled d
  | Rejected e => (d, Rejected e)
  end.

(* ================================================================== *)
(** ** Asynchronous code

    An [async] function is a tree whose nodes are its [await]s on the shared
    file: between two nodes the code runs without interruption. *)
Inductive prog (A : Type) : Type :=
| Ret (a : A)
| Throw (e : exn)
| Spin
    (* a synchronous loop that has not exited *)
| ReadFile (k : exn + content → prog A)
    (* [await fs.readFile(LOTTERY_DB, 'utf8')] *)
| Enqueue (payload : DB) (k : settled → prog A).
    (* [pendingWrite = pendingWrite.then(() => writeJSON(LOTTERY_DB, payload));
       await pendingWrite] *)
Arguments Ret {A} a.
Arguments Throw {A} e.
Arguments Spin {A}.
Arguments ReadFile {A} k.
Arguments Enqueue {A} payload k.

Fixpoint bind {A B} (p : prog A) (f : A → prog B) : prog B :=
  match p with
  | Ret a => f a
  | Throw e => Throw e
  | Spin => Spin
  | ReadFile k => ReadFile (λ r, bind (k r) f)
  | Enqueue payload k => Enqueue payload (λ r, bind (k r) f)
  end.

#[global] Instance prog_ret : MRet prog := @Ret.
#[global] Instance prog_bind : MBind prog := λ A B f p, bind p f.

(** [try { p } catch (err) { handler(err) }] *)
Fixpoint try_catch {A} (p : prog A) (handler : exn → prog A) : prog A :=
  match p with
  | Ret a => Ret a
  | Throw e => handler e
  | Spin => Spin
  | ReadFile k => ReadFile (λ r, try_catch (k r) handler)
  | Enqueue payload k => Enqueue payload (λ r, try_catch (k r) handler)
  end.

Definition readFile : prog content :=
  ReadFile (λ r, match r with inl err => Throw err | inr raw => Ret raw end).

(** [err.code === 'ENOENT'] *)
Definition code_is (err : exn) (c : string) : bool :=
  match err with
  | FsError code => String.eqb code c
  | SyntaxError => false
  end.

(** [err instanceof SyntaxError] *)
Definition instanceof_SyntaxError (err : exn) : bool :=
  match err with
  | SyntaxError => true
  | FsError _ => false
  end.

Definition readJSON : prog (option DB) :=
  try_catch
    (raw ← readFile;
     match JSON_parse raw with
     | inl err => Throw err
     | inr data => Ret data
     end)
    (λ err,
       if code_is err "ENOENT" then Ret None
       else if instanceof_SyntaxError err then Ret None
       else Throw err).

(* ================================================================== *)
(** ** [controllers/lotteryController.js] *)

Definition empty : DB := mkDB [] [].

(** [data ?? empty] inside [try], [return empty] in [catch]. *)
Definition loadDB : prog DB :=
  try_catch
    (data ← readJSON; Ret (default empty data))
    (λ e, Ret empty).

Definition writeDBAtomic (payload : DB) : prog unit :=
  Enqueue payload
    (λ r, match r with Fulfilled => Ret tt | Rejected e => Throw e end).

(** What the environment hands a handler during one call: the result of
    [uuidv4()], the values of [Math.random()] and
    [new Date().toISOString()]. *)
Record Entropy := mkEntropy {
  uuid : string;
  rnd : list Math.random;
  now : string
}.

(** Bodies sent with [res.json]. *)
Inductive Json :=
| JError (error : string)
| JTicket (message : string) (ticket : Ticket.t)
| JDraw (message : string) (draw : Draw.t).

(** [res.status(status).json(json)] *)
Record Response := mkRes { status : nat; json : Json }.

(** [t.drawId === null] *)
Definition pending (t : Ticket.t) : bool :=
  match Ticket.drawId t with None => true | Some _ => false end.

Definition buyTicket (cfg : Config) (user : option User.t) (env : Entropy)
  : prog Response :=
  let userId := user ≫= User.id in
  if negb (truthy userId) then
    Ret (mkRes 401 (JError "Authentication required"))
  else
    let userId := default "" userId in
    db ← loadDB;
    let ticketsWithoutDraw := List.filter pending (tickets db) in
    if bool_decide (MAX_TICKETS_PER_DRAW cfg ≤ Z.of_nat (length ticketsWithoutDraw)) then
      Ret (mkRes 429 (JError ("Maximum of " +:+ pretty (MAX_TICKETS_PER_DRAW cfg)
                              +:+ " pending tickets reached. Try later.")))
    else
      let myPending :=
        List.filter (λ t, String.eqb (Ticket.userId t) userId) ticketsWithoutDraw in
      if bool_decide (MAX_TICKETS_PER_USER cfg ≤ Z.of_nat (length myPending)) then
        Ret (mkRes 429 (JError ("You already have " +:+ pretty (MAX_TICKETS_PER_USER cfg)
                                +:+ " pending tickets.")))
      else
        match generateTicketNumbers (rnd env) with
        | None => Spin
        | Some numbers =>
            let newTicket := Ticket.mk (uuid env) userId numbers None (now env) in
            let db := mkDB (draws db) (tickets db ++ [newTicket]) in
            writeDBAtomic db;;
            Ret (mkRes 201 (JTicket "Ticket purchased successfully." newTicket))
        end.

(** [d => !db.tickets.some(t => t.drawId === d.id)] *)
Definition unreferenced (db : DB) (d : Draw.t) : bool :=
  negb (existsb (λ t, bool_decide (Ticket.drawId t = Some (Draw.id d))) (tickets db)).

(** [if (ticket.drawId === null) ticket.drawId = newDraw.id] *)
Definition assign (newId : string) (ticket : Ticket.t) : Ticket.t :=
  if pending ticket then
    Ticket.mk (Ticket.id ticket) (Ticket.userId ticket) (Ticket.numbers ticket)
              (Some newId) (Ticket.purchasedAt ticket)
  else ticket.

Definition draw (user : option User.t) (env : Entropy) : prog Response :=
  if negb (isAdmin user) then
    Ret (mkRes 403 (JError "Admin privileges required."))
  else
    db ← loadDB;
    let openDraw := List.find (unreferenced db) (draws db) in
    match openDraw with
    | Some _ =>
        Ret (mkRes 400 (JError "There is already an active draw awaiting tickets."))
    | None =>
        match generateTicketNumbers (rnd env) with
        | None => Spin
        | Some numbers =>
            let newDraw := Draw.mk (uuid env) numbers (now env) in
            let db := mkDB (draws db ++ [newDraw])
                           (assign (Draw.id newDraw) <$> tickets db) in
            writeDBAtomic db;;
            Ret (mkRes 201 (JDraw "New draw created." newDraw))
        end
    end.

(* ================================================================== *)
(** ** The handlers that only read *)

(** One entry of [myResults]: [{ ticketId, numbers, matches, prize }]. *)
Module Row.
Record t := mk {
  ticketId : string;
  numbers : list Z;
  matches : nat;
  prize : string
}.
End Row.

(** Bodies sent by [myTickets], [listDraws] and [results]. *)
Inductive View :=
| VError (error : string)
| VTickets (page limit : Z) (totalTickets : nat) (tickets : list Ticket.t)
| VDraws (draws : list Draw.t)
| VResults (draw : Draw.t) (myResults : list Row.t).

(** [res.status(code).json(view)]; [res.json(view)] alone sends 200. *)
Record Reply := mkReply { code : nat; view : View }.

(** [Array.prototype.slice(start, end)] with integer arguments: a negative
    index counts from the end, and both are clamped to the array. *)
Definition slice {A} (start end_ : Z) (l : list A) : list A :=
  let len := Z.of_nat (length l) in
  let k := if start <? 0 then Z.max (len + start) 0 else Z.min start len in
  let final := if end_ <? 0 then Z.max (len + end_) 0 else Z.min end_ len in
  take (Z.to_nat (final - k)) (drop (Z.to_nat k) l).

(** [parseInt(q, 10) || dflt], where [q] is what [parseInt] makes of the
    query value: [None] for [NaN] (a value that is absent or does not start
    with digits); [NaN] and [0] are falsy. *)
Definition parsedOr (q : option Z) (dflt : Z) : Z :=
  match q with
  | Some 0 | None => dflt
  | Some n => n
  end.

Definition myTickets (user : option User.t) (page limit : option Z) : prog Reply :=
  let userId := user ≫= User.id in
  if negb (truthy userId) then
    Ret (mkReply 401 (VError "Authentication required"))
  else
    let userId := default "" userId in
    db ← loadDB;
    let myAll := List.filter (λ t, String.eqb (Ticket.userId t) userId) (tickets db) in
    let page := Z.max 1 (parsedOr page 1) in
    let limit := Z.max 1 (parsedOr limit 20) in
    let start := (page - 1) * limit in
    let paged := slice start (start + limit) myAll in
    Ret (mkReply 200 (VTickets page limit (length myAll) paged)).

(** [t => ({ ticketId: t.id, numbers: t.numbers, matches, prize })] *)
Definition detail (draw : Draw.t) (t : Ticket.t) : Row.t :=
  let matches := countMatches (Ticket.numbers t) (Draw.numbers draw) in
  Row.mk (Ticket.id t) (Ticket.numbers t) matches (prizeFromMatches matches).

Definition results (user : option User.t) (drawId : string) : prog Reply :=
  let userId := user ≫= User.id in
  if negb (truthy userId) then
    Ret (mkReply 401 (VError "Authentication required"))
  else
    let userId := default "" userId in
    db ← loadDB;
    match List.find (λ d, String.eqb (Draw.id d) drawId) (draws db) with
    | None => Ret (mkReply 404 (VError "Draw not found."))
    | Some draw =>
        let myTickets :=
          List.filter
            (λ t, String.eqb (Ticket.userId t) userId
                  && bool_decide (Ticket.drawId t = Some drawId))
            (tickets db) in
        let detailedResults := detail draw <$> myTickets in
        Ret (mkReply 200 (VResults draw detailedResults))
    end.

(** [Array.prototype.sort(comparefn)] for a comparator that orders its
    arguments consistently: the stable sort, here by insertion.  A result
    of [comparefn] that is [NaN] ([None]) counts as [0]. *)
Fixpoint insertBy {A} (comparefn : A → A → option Z) (x : A) (l : list A) : list A :=
  match l with
  | [] => [x]
  | y :: l' =>
      if 0 <? default 0 (comparefn x y) then y :: insertBy comparefn x l'
      else x :: y :: l'
  end.

Fixpoint sortBy {A} (comparefn : A → A → option Z) (l : list A) : list A :=
  match l with
  | [] => []
  | x :: l' => insertBy comparefn x (sortBy comparefn l')
  end.

(** [(a, b) => new Date(b.date) - new Date(a.date)]; [getTime] is the time
    value of [new Date(s)], [None] for an invalid date ([NaN]). *)
Definition newestFirst (getTime : string → option Z) (a b : Draw.t) : option Z :=
  match getTime (Draw.date b), getTime (Draw.date a) with
  | Some tb, Some ta => Some (tb - ta)
  | _, _ => None
  end.

Definition listDraws (getTime : string → option Z) : prog Reply :=
  db ← loadDB;
  let draws := sortBy (newestFirst getTime) (draws db) in
  Ret (mkReply 200 (VDraws draws)).

(* ================================================================== *)
(** ** [routes/auth.js], [routes/lottery.js]: what runs before a handler *)

(** [req.session.cookie]: [maxAge] and [_expires] in milliseconds, [None]
    for [null] (a cookie that lasts as long as the browser session). *)
Module Cookie.
Record t := mk { maxAge : option Z; _expires : option Z }.
End Cookie.

(** [req.session]; [login] fills [userId], [role] and [username] (the name,
    which no handler reads, is left out). *)
Module Session.
Record t := mk {
  userId : option string;
  email : option string;
  role : option string;
  cookie : option Cookie.t
}.
End Session.

(** What the middleware reads of a request: the session and the
    [Authorization] header. *)
Record Request := mkReq {
  session : option Session.t;
  authorization : option string
}.

(** [s.split(' ')] *)
Module Js.
Fixpoint split (s : string) : list string :=
  match s with
  | EmptyString => [EmptyString]
  | String c s' =>
      if Ascii.eqb c Ascii.Space then EmptyString :: split s'
      else
        match split s' with
        | w :: ws => String c w :: ws
        | [] => [String c EmptyString]
        end
  end.
End Js.

(** [authHeader && authHeader.split(' ')[1]] *)
Definition bearer (authHeader : option string) : option string :=
  match authHeader with
  | None => None
  | Some header => if truthy (Some header) then Js.split header !! 1%nat else Some header
  end.

(** A middleware either answers with [res.status(st).json({ ok: false, error })]
    or sets [req.user] and calls [next()]. *)
Definition guarded : Type := (nat * string) + User.t.

Section Routes.
(** [jwt.verify(token, JWT_SECRET, callback)]: the decoded payload, [None]
    when the callback receives an error. *)
Variable jwt_verify : string → option User.t.

Definition authenticate (req : Request) : guarded :=
  match session req with
  | Some s =>
      if truthy (Session.userId s) then
        inr (User.mk (Session.userId s) (Session.role s) (Session.email s))
      else
        let token := bearer (authorization req) in
        if negb (truthy token) then inl (401%nat, "Missing authentication token")
        else
          match jwt_verify (default "" token) with
          | None => inl (403%nat, "Invalid or expired token")
          | Some decoded => inr decoded
          end
  | None =>
      let token := bearer (authorization req) in
      if negb (truthy token) then inl (401%nat, "Missing authentication token")
      else
        match jwt_verify (default "" token) with
        | None => inl (403%nat, "Invalid or expired token")
        | Some decoded => inr decoded
        end
  end.

(** [router.post('/draw', authenticate, adminOnly, draw)] *)
Definition post_draw (req : Request) (env : Entropy) : prog Response :=
  match authenticate req with
  | inl (st, error) => Ret (mkRes st (JError error))
  | inr user =>
      if negb (adminOnly (Some user)) then
        Ret (mkRes 403 (JError "Admin privileges required to run a draw."))
      else draw (Some user) env
  end.

(** [router.get('/tickets', authenticate, myTickets)] *)
Definition get_tickets (req : Request) (page limit : option Z) : prog Reply :=
  match authenticate req with
  | inl (st, error) => Ret (mkReply st (VError error))
  | inr user => myTickets (Some user) page limit
  end.

(** [router.get('/results/:drawId', authenticate, results)] *)
Definition get_results (req : Request) (drawId : string) : prog Reply :=
  match authenticate req with
  | inl (st, error) => Ret (mkReply st (VError error))
  | inr user => results (Some user) drawId
  end.
End Routes.

(* ================================================================== *)
(** ** [authMiddleware.js]: sliding expiration *)

(** A number of milliseconds or [null] in arithmetic: [null] counts as 0. *)
Definition toNumber (v : option Z) : Q := inject_Z (default 0 v).

(** [true] when the middleware calls [req.session.touch()]; it calls
    [next()] in every case. *)
Definition refreshSession (now : Z) (session : option Session.t) : bool :=
  match session with
  | None => false
  | Some s =>
      match Session.cookie s with
      | None => false
      | Some cookie =>
          if truthy (Session.userId s) then
            let maxAge := Cookie.maxAge cookie in
            Qle_bool (toNumber maxAge)
                     (inject_Z now - toNumber (Cookie._expires cookie)
                      + toNumber maxAge / 2)%Q
          else false
      end
  end.

(* ================================================================== *)
(** ** One request running alone *)

(** The process and its surroundings while a single request is served:
    the file, the module variable [pendingWrite] (settled, since nothing else
    is in flight) and the errors the operating system answers reads and
    writes with. *)
Record World := mkWorld {
  disk : Disk;
  pendingWrite : settled;
  readFault : option string;
  writeFault : option string
}.

Inductive outcome (A : Type) : Type :=
| Returned (a : A)
| Thrown (e : exn)
| Spinning.
Arguments Returned {A} a.
Arguments Thrown {A} e.
Arguments Spinning {A}.

Fixpoint exec {A} (p : prog A) (w : World) : outcome A * World :=
  match p with
  | Ret a => (Returned a, w)
  | Throw e => (Thrown e, w)
  | Spin => (Spinning, w)
  | ReadFile k => exec (k (fs_readFile (readFault w) (disk w))) w
  | Enqueue payload k =>
      let '(d, st) :=
        then_ (pendingWrite w) (writeJSON (writeFault w) payload) (disk w) in
      exec (k st) (mkWorld d st (readFault w) (writeFault w))
  end.

(** What [loadDB] makes of the result of [fs.readFile]. *)
Definition loadedFrom (r : exn + content) : DB :=
  match r with
  | inr (JsonDoc db) => db
  | _ => empty
  end.

(** The document [loadDB] hands the handler in world [w]. *)
Definition loaded (w : World) : DB :=
  loadedFrom (fs_readFile (readFault w) (disk w)).

(* ================================================================== *)
(** ** The event loop: any number of requests in flight *)

(** The two handlers that write.  [myTickets], [listDraws] and [results]
    only read the ledger and never reach [writeDBAtomic]: they change
    neither the file nor the write chain and are left out. *)
Inductive op :=
| BuyTicket (user : option User.t) (env : Entropy)
| ExecuteDraw (user : option User.t) (env : Entropy).

Definition handler (cfg : Config) (o : op) : prog Response :=
  match o with
  | BuyTicket user env => buyTicket cfg user env
  | ExecuteDraw user env => draw user env
  end.

(** Where a request stands. *)
Inductive task :=
| Ready (p : prog Response)
    (* the handler, or its continuation after an [await] whose value has
       arrived, waits for its turn *)
| AwaitRead (k : exn + content → prog Response)
| AwaitWrite (k : settled → prog Response)
| Done (r : Response)
| Failed (e : exn)
    (* [next(err)] *)
| Stuck.

(** [chain]: the callbacks queued behind [settledTail] by successive
    [pendingWrite.then(...)], oldest first, each with the request that
    awaits it; [settledTail] is the state of the promise before the first
    of them.  [blocked]: some handler spins, so the single thread serves
    nothing else. *)
Record Sys := mkSys {
  sdisk : Disk;
  settledTail : settled;
  chain : list (nat * DB);
  tasks : list (op * task);
  blocked : bool
}.

Definition boot (d : Disk) : Sys := mkSys d Fulfilled [] [] false.

Inductive label :=
| Arrive (o : op)
| Resume (rid : nat)
| ReadDone (rid : nat) (fault : option string)
| WriteDone (fault : option string).

(** Run request [rid] from [p] up to its next [await]. *)
Definition advance (rid : nat) (o : op) (p : prog Response) (s : Sys) : Sys :=
  match p with
  | Ret r =>
      mkSys (sdisk s) (settledTail s) (chain s) (<[rid := (o, Done r)]> (tasks s)) false
  | Throw e =>
      mkSys (sdisk s) (settledTail s) (chain s) (<[rid := (o, Failed e)]> (tasks s)) false
  | Spin =>
      mkSys (sdisk s) (settledTail s) (chain s) (<[rid := (o, Stuck)]> (tasks s)) true
  | ReadFile k =>
      mkSys (sdisk s) (settledTail s) (chain s) (<[rid := (o, AwaitRead k)]> (tasks s)) false
  | Enqueue payload k =>
      mkSys (sdisk s) (settledTail s) (chain s ++ [(rid, payload)])
            (<[rid := (o, AwaitWrite k)]> (tasks s)) false
  end.

Definition step (cfg : Config) (l : label) (s : Sys) : option Sys :=
  if blocked s then None else
  match l with
  | Arrive o =>
      Some (mkSys (sdisk s) (settledTail s) (chain s)
                  (tasks s ++ [(o, Ready (handler cfg o))]) false)
  | Resume rid =>
      match tasks s !! rid with
      | Some (o, Ready p) => Some (advance rid o p s)
      | _ => None
      end
  | ReadDone rid fault =>
      match tasks s !! rid with
      | Some (o, AwaitRead k) =>
          Some (mkSys (sdisk s) (settledTail s) (chain s)
                      (<[rid := (o, Ready (k (fs_readFile fault (sdisk s))))]> (tasks s))
                      false)
      | _ => None
      end
  | WriteDone fault =>
      match chain s with
      | (rid, payload) :: rest =>
          match tasks s !! rid with
          | Some (o, AwaitWrite k) =>
              let '(d, st) :=
                then_ (settledTail s) (writeJSON fault payload) (sdisk s) in
              Some (mkSys d st rest (<[rid := (o, Ready (k st))]> (tasks s)) false)
          | _ => None
          end
      | [] => None
      end
  end.

Fixpoint run (cfg : Config) (trace : list label) (s : Sys) : option Sys :=
  match trace with
  | [] => Some s
  | l :: trace' =>
      match step cfg l s with
      | Some s' => run cfg trace' s'
      | None => None
      end
  end.

(* ================================================================== *)
(** ** [controllers/userController.js]: the user store

    [data/users.json] has its own [pendingWrite] chain, written like the
    ledger's; [isAdmin] is the function of the lottery controller, word for
    word. *)
Module Users.

(** [{ id, name, email, passwordHash, role?, createdAt, updatedAt }] *)
Record t := mk {
  id : string;
  name : string;
  email : string;
  passwordHash : string;
  role : option string;
  createdAt : string;
  updatedAt : option string
}.

(** What [const { passwordHash, ...rest } = u] leaves in [rest]. *)
Record safe := mkSafe {
  safe_id : string;
  safe_name : string;
  safe_email : string;
  safe_role : option string;
  safe_createdAt : string;
  safe_updatedAt : option string
}.

Definition withoutHash (u : t) : safe :=
  mkSafe (id u) (name u) (email u) (role u) (createdAt u) (updatedAt u).

(** A parsed value, as far as [Array.isArray] tells values apart. *)
Inductive value :=
| Array (users : list t)
| NotArray.

(** The text of the file, by what [JSON.parse] makes of it. *)
Inductive content :=
| Malformed
| Json (v : value).

Definition JSON_parse (raw : content) : exn + value :=
  match raw with
  | Malformed => inl SyntaxError
  | Json v => inr v
  end.

Record Disk := mkDisk { file : option content; written : list (list t) }.

Definition fs_readFile (fault : option string) (d : Disk) : exn + content :=
  match fault with
  | Some code => inl (FsError code)
  | None =>
      match file d with
      | None => inl (FsError "ENOENT")
      | Some raw => inr raw
      end
  end.

Definition writeJSON (fault : option string) (data : list t) (d : Disk)
  : Disk * settled :=
  match fault with
  | Some code => (d, Rejected (FsError code))
  | None => (mkDisk (Some (Json (Array data))) (written d ++ [data]), Fulfilled)
  end.

Definition then_ (p : settled) (onFulfilled : Disk → Disk * settled) (d : Disk)
  : Disk * settled :=
  match p with
  | Fulfilled => onFulfilled d
  | Rejected e => (d, Rejected e)
  end.

(** The handlers of this controller never loop: an [async] function here
    returns, throws, or awaits the file or the write chain. *)
Inductive prog (A : Type) : Type :=
| Ret (a : A)
| Throw (e : exn)
| ReadFile (k : exn + content → prog A)
| Enqueue (payload : list t) (k : settled → prog A).
Arguments Ret {A} a.
Arguments Throw {A} e.
Arguments ReadFile {A} k.
Arguments Enqueue {A} payload k.

Fixpoint bind {A B} (p : prog A) (f : A → prog B) : prog B :=
  match p with
  | Ret a => f a
  | Throw e => Throw e
  | ReadFile k => ReadFile (λ r, bind (k r) f)
  | Enqueue payload k => Enqueue payload (λ r, bind (k r) f)
  end.

#[global] Instance prog_ret : MRet prog := @Ret.
#[global] Instance prog_bind : MBind prog := λ A B f p, bind p f.

Fixpoint try_catch {A} (p : prog A) (handler : exn → prog A) : prog A :=
  match p with
  | Ret a => Ret a
  | Throw e => handler e
  | ReadFile k => ReadFile (λ r, try_catch (k r) handler)
  | Enqueue payload k => Enqueue payload (λ r, try_catch (k r) handler)
  end.

Definition readFile : prog content :=
  ReadFile (λ r, match r with inl err => Throw err | inr raw => Ret raw end).

(** [readJSON(USERS_DB)]; the [null] it returns for a missing or unparsable
    file is not an array. *)
Definition readJSON : prog value :=
  try_catch
    (raw ← readFile;
     match JSON_parse raw with
     | inl err => Throw err
     | inr data => Ret data
     end)
    (λ err,
       if code_is err "ENOENT" then Ret NotArray
       else if instanceof_SyntaxError err then Ret NotArray
       else Throw err).

(** [Array.isArray(data) ? data : []] inside [try], [[]] in [catch]. *)
Definition loadUsers : prog (list t) :=
  try_catch
    (data ← readJSON;
     Ret (match data with Array users => users | NotArray => [] end))
    (λ e, Ret []).

Definition writeDBAtomic (payload : list t) : prog unit :=
  Enqueue payload
    (λ r, match r with Fulfilled => Ret tt | Rejected e => Throw e end).

(** Bodies sent with [res.json]. *)
Inductive Body :=
| BError (error : string)
| BUsers (page limit : Z) (totalUsers : nat) (users : list safe)
| BUser (user : safe)
| BMessage (message : string).

(** [res.status(code).json(body)]; [sessionDestroyed]: the handler has
    called [req.session.destroy] and [res.clearCookie('connect.sid')]. *)
Record Reply := mkReply { code : nat; body : Body; sessionDestroyed : bool }.

Definition listUsers (user : option User.t) (page limit : option Z) : prog Reply :=
  if negb (isAdmin user) then
    Ret (mkReply 403 (BError "Admin privileges required.") false)
  else
    all ← loadUsers;
    let page := Z.max 1 (parsedOr page 1) in
    let limit := Z.max 1 (parsedOr limit 20) in
    let start := (page - 1) * limit in
    let paged := slice start (start + limit) all in
    let safe := withoutHash <$> paged in
    Ret (mkReply 200 (BUsers page limit (length all) safe) false).

(** [requester.id !== id] *)
Definition another (requester : User.t) (id : string) : bool :=
  negb (bool_decide (User.id requester = Some id)).

Definition getUser (requester : option User.t) (id : string) : prog Reply :=
  if match requester with
     | None => true
     | Some r => another r id && negb (isAdmin requester)
     end
  then Ret (mkReply 403 (BError "Access denied.") false)
  else
    users ← loadUsers;
    match List.find (λ u, String.eqb (Users.id u) id) users with
    | None => Ret (mkReply 404 (BError "User not found.") false)
    | Some user => Ret (mkReply 200 (BUser (withoutHash user)) false)
    end.

Definition deleteUser (requester : option User.t) (session : option Session.t)
  (id : string) : prog Reply :=
  let canDelete :=
    isAdmin requester
    || match requester with
       | None => false
       | Some r => bool_decide (User.id r = Some id)
       end in
  if negb canDelete then Ret (mkReply 403 (BError "Access denied.") false)
  else
    users ← loadUsers;
    let filtered := List.filter (λ u, negb (String.eqb (Users.id u) id)) users in
    if bool_decide (length filtered = length users) then
      Ret (mkReply 404 (BError "User not found.") false)
    else
      writeDBAtomic filtered;;
      let destroyed :=
        match session with
        | None => false
        | Some s => bool_decide (Session.userId s = Some id)
        end in
      Ret (mkReply 200 (BMessage "User deleted.") destroyed).

(** [req.body] of an update: [{ name, email, password, role }], a field
    that is absent reads [undefined]. *)
Module Patch.
Record t := mk {
  name : option string;
  email : option string;
  password : option string;
  role : option string
}.
End Patch.

(** [v ? f(v) : old]: a field of [updates] laid over the record by
    [{ ...user, ...updates }]. *)
Definition over (v : option string) (f : string → string) (old : string) : string :=
  if truthy v then f (default "" v) else old.

Section Update.
(** [/^[^\s@]+@[^\s@]+\.[^\s@]+$/.test], [String.prototype.trim] and
    [String.prototype.toLowerCase]. *)
Variable test_email : string → bool.
Variable trim : string → string.
Variable toLowerCase : string → string.

(** [hash] is what [await bcrypt.hash(password, SALT_ROUNDS)] gives, [now]
    is [new Date().toISOString()]. *)
Definition updateUser (requester : option User.t) (id : string) (body : Patch.t)
  (hash now : string) : prog Reply :=
  if match requester with
     | None => true
     | Some r => another r id && negb (isAdmin requester)
     end
  then Ret (mkReply 403 (BError "Access denied.") false)
  else
    users ← loadUsers;
    match list_find (λ u, Users.id u = id) users with
    | None => Ret (mkReply 404 (BError "User not found.") false)
    | Some (idx, user) =>
        if truthy (Patch.email body) && negb (test_email (default "" (Patch.email body))) then
          Ret (mkReply 400 (BError "Invalid e‑mail address.") false)
        else if truthy (Patch.password body)
                && (String.length (default "" (Patch.password body)) <? 8)%nat then
          Ret (mkReply 400 (BError "Password must be at least 8 characters.") false)
        else
          let updated :=
            mk (Users.id user)
               (over (Patch.name body) trim (name user))
               (over (Patch.email body) (λ e, toLowerCase (trim e)) (email user))
               (over (Patch.password body) (λ _, hash) (passwordHash user))
               (if truthy (Patch.role body) && isAdmin requester then Patch.role body
                else role user)
               (createdAt user)
               (Some now) in
          let users := <[idx := updated]> users in
          writeDBAtomic users;;
          Ret (mkReply 200 (BUser (withoutHash updated)) false)
    end.
End Update.

(** One request running alone, as for the ledger. *)
Record World := mkWorld {
  disk : Disk;
  pendingWrite : settled;
  readFault : option string;
  writeFault : option string
}.

Inductive outcome (A : Type) : Type :=
| Returned (a : A)
| Thrown (e : exn).
Arguments Returned {A} a.
Arguments Thrown {A} e.

Fixpoint exec {A} (p : prog A) (w : World) : outcome A * World :=
  match p with
  | Ret a => (Returned a, w)
  | Throw e => (Thrown e, w)
  | ReadFile k => exec (k (fs_readFile (readFault w) (disk w))) w
  | Enqueue payload k =>
      let '(d, st) :=
        then_ (pendingWrite w) (writeJSON (writeFault w) payload) (disk w) in
      exec (k st) (mkWorld d st (readFault w) (writeFault w))
  end.

(** The array [loadUsers] hands the handler in world [w]. *)
Definition loaded (w : World) : list t :=
  match fs_readFile (readFault w) (disk w) with
  | inr (Json (Array users)) => users
  | _ => []
  end.

(** Nothing in the way of a write. *)
Definition writable (w : World) : Prop :=
  pendingWrite w = Fulfilled ∧ writeFault w = None.

End Users.

(* ================================================================== *)
(** ** Vocabulary of the properties *)

(** A number set as the data model wants it: six distinct integers of
    [1..49], ascending. *)
Definition validNumbers (l : list Z) : Prop :=
  length l = 6%nat ∧ NoDup l ∧ Forall (λ n, 1 ≤ n ≤ 49) l ∧ Sorted Z.le l.


(** A draw no ticket refers to. *)
Definition unfilled (db : DB) (d : Draw.t) : Prop :=
  ∀ t, t ∈ tickets db → Ticket.drawId t ≠ Some (Draw.id d).

(** Pending tickets, of everybody and of one user. *)
Definition pendingCount (db : DB) : nat :=
  length (List.filter pending (tickets db)).

Definition pendingCountOf (uid : string) (db : DB) : nat :=
  length (List.filter (λ t, pending t && String.eqb (Ticket.userId t) uid) (tickets db)).

(** The admin predicate as the specification words it: the role test, and
    the e-mail test whenever the role test did not give [true]. *)
Definition isAdmin_as_specified (user : option User.t) : bool :=
  match user with
  | None => false
  | Some u =>
      bool_decide (User.role u = Some "admin")
      || match User.email u with
         | Some e => endsWith e "@admin.com"
         | None => false
         end
  end.

Definition res_unauthenticated : Response :=
  mkRes 401 (JError "Authentication required").
Definition res_forbidden : Response :=
  mkRes 403 (JError "Admin privileges required.").
Definition res_conflict : Response :=
  mkRes 400 (JError "There is already an active draw awaiting tickets.").
Definition res_ticket (t : Ticket.t) : Response :=
  mkRes 201 (JTicket "Ticket purchased successfully." t).
Definition res_draw (d : Draw.t) : Response :=
  mkRes 201 (JDraw "New draw created." d).

(** *** The event loop at rest, and traces *)




(** One request served from start to end with nothing else in flight. *)
Definition solo (o : op) (rid : nat) : list label :=
  [Arrive o; Resume rid; ReadDone rid None; Resume rid; WriteDone None; Resume rid].




(** *** Invariant of a ledger that holds an unfilled draw [d] *)






(* ================================================================== *)
(** ** Fixtures *)

Definition sample (q : Q) (H : Qle_bool 0 q && negb (Qle_bool 1 q) = true)
  : Math.random := Math.mkRandom q H.

(** Nine values of [Math.random()]; they pick 1, 25, 1, 49, 49, 17, 33, 1, 8. *)
Definition samples : list Math.random :=
  [ sample (1#50) eq_refl; sample (1#2) eq_refl; sample (1#50) eq_refl;
    sample (48#49) eq_refl; sample (99#100) eq_refl; sample (1#3) eq_refl;
    sample (2#3) eq_refl; sample 0 eq_refl; sample (1#7) eq_refl ].

Definition cfg0 : Config := configFromEnv None None.
Definition alice : option User.t := Some (User.mk (Some "alice") None None).
Definition bob : option User.t := Some (User.mk (Some "bob") None None).
Definition root : option User.t := Some (User.mk (Some "root") (Some "admin") None).
(** A plain user whose address lies in the administrative domain. *)
Definition carol : option User.t :=
  Some (User.mk (Some "carol") (Some "user") (Some "carol@admin.com")).

Definition env1 : Entropy := mkEntropy "id-1" samples "2024-05-01T10:00:00.000Z".
Definition env2 : Entropy := mkEntropy "id-2" samples "2024-05-01T10:00:01.000Z".
Definition env3 : Entropy := mkEntropy "id-3" samples "2024-05-01T10:00:02.000Z".

Definition ticketA : Ticket.t :=
  Ticket.mk "t-a" "alice" [3; 12; 19; 27; 41; 49] None "2024-04-30T09:00:00.000Z".
Definition ticketB : Ticket.t :=
  Ticket.mk "t-b" "bob" [1; 2; 3; 4; 5; 6] (Some "d-0") "2024-04-29T09:00:00.000Z".
Definition draw0 : Draw.t :=
  Draw.mk "d-0" [3; 8; 19; 27; 33; 44] "2024-04-29T12:00:00.000Z".
Definition drawOpen : Draw.t :=
  Draw.mk "d-1" [1; 2; 3; 4; 5; 6] "2024-04-30T12:00:00.000Z".

(** One filled draw, one assigned and one pending ticket. *)
Definition ledger1 : DB := mkDB [draw0] [ticketB; ticketA].
(** The same with a second draw that no ticket refers to. *)
Definition ledger2 : DB := mkDB [draw0; drawOpen] [ticketB; ticketA].
(** One filled draw and no pending ticket. *)
Definition ledger3 : DB := mkDB [draw0] [ticketB].

Definition world (db : DB) : World :=
  mkWorld (mkDisk (Some (JsonDoc db)) []) Fulfilled None None.

(** Two purchases whose reads both finish before either write. *)
Definition overlapping : list label :=
  [ Arrive (BuyTicket alice env1); Arrive (BuyTicket bob env2);
    Resume 0; Resume 1;
    ReadDone 0 None; ReadDone 1 None;
    Resume 0; Resume 1;
    WriteDone None; WriteDone None;
    Resume 0; Resume 1 ]%nat.

(** The same two purchases, the second arriving once the first has been
    answered. *)
Definition oneAfterTheOther : list label :=
  solo (BuyTicket alice env1) 0 ++ solo (BuyTicket bob env2) 1.

(** A purchase whose write fails for lack of space, then, once it has been
    answered, a second purchase that the disk would accept. *)
Definition afterFailure : list label :=
  [ Arrive (BuyTicket alice env1);
    Resume 0; ReadDone 0 None; Resume 0; WriteDone (Some "ENOSPC"); Resume 0;
    Arrive (BuyTicket bob env2);
    Resume 1; ReadDone 1 None; Resume 1; WriteDone None; Resume 1 ]%nat.


(** A purchase and a draw in flight together, the draw's write queued
    first; then a second draw, served alone. *)
Definition purchaseAcrossDraw : list label :=
  [ Arrive (BuyTicket alice env2); Arrive (ExecuteDraw root env1);
    Resume 0; Resume 1;
    ReadDone 0 None; ReadDone 1 None;
    Resume 1; Resume 0;
    WriteDone None; WriteDone None;
    Resume 1; Resume 0 ]%nat
  ++ solo (ExecuteDraw root env3) 2.

(** A draw, then a second draw whose read of the ledger is refused. *)
Definition drawAfterReadError : list label :=
  solo (ExecuteDraw root env1) 0
  ++ [ Arrive (ExecuteDraw root env3);
       Resume 1; ReadDone 1 (Some "EACCES"); Resume 1; WriteDone None; Resume 1 ]%nat.

(** The ledger file is there, but reading it is refused. *)
Definition unreadable (db : DB) : World :=
  mkWorld (mkDisk (Some (JsonDoc db)) []) Fulfilled (Some "EACCES") None.

(* ================================================================== *)
(** ** Properties of the ledger that every document written keeps *)

(** Every ticket that names a draw names one of the ledger's draws. *)
Definition referencesResolve (db : DB) : Prop :=
  ∀ t d, t ∈ tickets db → Ticket.drawId t = Some d →
    ∃ dr, dr ∈ draws db ∧ Draw.id dr = d.


(** The pending tickets stay within the configured limits (a limit below
    zero counts as zero: nothing can then be bought). *)
Definition withinLimits (cfg : Config) (db : DB) : Prop :=
  Z.of_nat (pendingCount db) ≤ Z.max 0 (MAX_TICKETS_PER_DRAW cfg)
  ∧ ∀ uid, Z.of_nat (pendingCountOf uid db) ≤ Z.max 0 (MAX_TICKETS_PER_USER cfg).

(** Only the draw created last can be without tickets. *)
Definition onlyLastUnfilled (db : DB) : Prop :=
  ∀ i d, draws db !! i = Some d → unfilled db d → S i = length (draws db).

(** What a property [I] of ledgers needs for the two writing handlers to
    keep it: it holds of the empty ledger, of a ledger after a purchase that
    passed the checks, and of a ledger after a draw that passed the guard. *)
Record ledgerInvariant (cfg : Config) (I : DB → Prop) : Prop := mkLedgerInvariant {
  li_empty : I empty;
  li_buy : ∀ db id uid numbers at_,
    I db → uid ≠ "" →
    Z.of_nat (pendingCount db) < MAX_TICKETS_PER_DRAW cfg →
    Z.of_nat (pendingCountOf uid db) < MAX_TICKETS_PER_USER cfg →
    validNumbers numbers →
    I (mkDB (draws db) (tickets db ++ [Ticket.mk id uid numbers None at_]));
  li_draw : ∀ db id numbers at_,
    I db → (∀ d, d ∈ draws db → ¬ unfilled db d) →
    validNumbers numbers →
    I (mkDB (draws db ++ [Draw.mk id numbers at_]) (assign id <$> tickets db))
}.

(** A continuation that, whatever the reads give it as long as the ledger
    loaded from them satisfies [I], only ever queues documents that satisfy
    [I]. *)
Inductive keepsProg (I : DB → Prop) : prog Response → Prop :=
| keeps_Ret r : keepsProg I (Ret r)
| keeps_Throw e : keepsProg I (Throw e)
| keeps_Spin : keepsProg I Spin
| keeps_ReadFile k :
    (∀ r, I (loadedFrom r) → keepsProg I (k r)) → keepsProg I (ReadFile k)
| keeps_Enqueue payload k :
    I payload → (∀ st, keepsProg I (k st)) → keepsProg I (Enqueue payload k).

Definition keepsTask (I : DB → Prop) (t : task) : Prop :=
  match t with
  | Ready p => keepsProg I p
  | AwaitRead k => ∀ r, I (loadedFrom r) → keepsProg I (k r)
  | AwaitWrite k => ∀ st, keepsProg I (k st)
  | Done _ | Failed _ | Stuck => True
  end.

(** The file, every document written so far, every queued document and
    every request in flight respect [I]. *)
Record keepsInv (I : DB → Prop) (s : Sys) : Prop := mkKeepsInv {
  keeps_file : ∀ db, file (sdisk s) = Some (JsonDoc db) → I db;
  keeps_written : Forall I (written (sdisk s));
  keeps_chain : Forall (λ job, I job.2) (chain s);
  keeps_tasks : Forall (λ ot, keepsTask I ot.2) (tasks s)
}.

(* ================================================================== *)
(** ** Answers and what has been stored *)

(** The ticket or the draw that an answer announces is part of a document
    among [W]. *)
Definition announcedIn (W : list DB) (r : Response) : Prop :=
  match json r with
  | JTicket _ t => ∃ db, db ∈ W ∧ t ∈ tickets db
  | JDraw _ d => ∃ db, db ∈ W ∧ d ∈ draws db
  | JError _ => True
  end.

(** A continuation that announces only what is stored: whatever it answers
    is among the documents [W] written so far, a document it queues being
    counted once its write has been fulfilled. *)
Inductive ackProg : list DB → prog Response → Prop :=
| ack_Ret W r : announcedIn W r → ackProg W (Ret r)
| ack_Throw W e : ackProg W (Throw e)
| ack_Spin W : ackProg W Spin
| ack_ReadFile W k : (∀ r, ackProg W (k r)) → ackProg W (ReadFile k)
| ack_Enqueue W payload k :
    (∀ W', payload ∈ W' → ackProg W' (k Fulfilled)) →
    (∀ e, ackProg W (k (Rejected e))) →
    ackProg W (Enqueue payload k).

Definition ackTask (W : list DB) (jobs : list (nat * DB)) (rid : nat) (t : task)
  : Prop :=
  match t with
  | Ready p => ackProg W p
  | AwaitRead k => ∀ r, ackProg W (k r)
  | AwaitWrite k =>
      (∀ payload W', (rid, payload) ∈ jobs → payload ∈ W' → ackProg W' (k Fulfilled))
      ∧ ∀ e, ackProg W (k (Rejected e))
  | Done r => announcedIn W r
  | Failed _ | Stuck => True
  end.

(** Every queued write belongs to a request that awaits it, no request has
    two writes queued, and every request announces only what is stored. *)
Record ackInv (s : Sys) : Prop := mkAckInv {
  ack_waiting : ∀ rid payload, (rid, payload) ∈ chain s →
    ∃ o k, tasks s !! rid = Some (o, AwaitWrite k);
  ack_once : NoDup (chain s).*1;
  ack_tasks : ∀ rid o t, tasks s !! rid = Some (o, t) →
    ackTask (written (sdisk s)) (chain s) rid t
}.

(* ================================================================== *)
(** ** Vocabulary for the handlers that only read *)

(** The tickets a reply lists. *)
Definition ticketsOf (out : outcome Reply) : list Ticket.t :=
  match out with
  | Returned (mkReply _ (VTickets _ _ _ ts)) => ts
  | _ => []
  end.

(** All tickets of one user, in ledger order. *)
Definition ticketsOfUser (uid : string) (db : DB) : list Ticket.t :=
  List.filter (λ t, String.eqb (Ticket.userId t) uid) (tickets db).

(** The time of a draw whose date is valid. *)
Definition timeOf (getTime : string → option Z) (d : Draw.t) : Z :=
  default 0 (getTime (Draw.date d)).

(* ================================================================== *)
(** ** Vocabulary for requests served in turn *)

(** Nothing in the way of a request: the write chain is not rejected and
    the file system answers reads and writes. *)
Definition healthy (w : World) : Prop :=
  pendingWrite w = Fulfilled ∧ readFault w = None ∧ writeFault w = None.

(** The ticket a purchase creates, when the caller is authenticated and the
    generator returns. *)
Definition bought (req : option User.t * Entropy) : option Ticket.t :=
  uid ← req.1 ≫= User.id;
  numbers ← generateTicketNumbers (rnd req.2);
  if String.eqb uid "" then None
  else Some (Ticket.mk (uuid req.2) uid numbers None (now req.2)).

(** Purchases served one after the other, each to its end before the next
    arrives. *)
Definition buyInTurn (cfg : Config) (reqs : list (option User.t * Entropy)) (w : World)
  : World :=
  foldl (λ w req, (exec (buyTicket cfg req.1 req.2) w).2) w reqs.

(* ================================================================== *)
(** ** Further fixtures *)

(** The time of the fixtures' dates, in milliseconds. *)
Definition clock (s : string) : option Z :=
  if String.eqb s "2024-04-29T12:00:00.000Z" then Some 1714392000000
  else if String.eqb s "2024-04-30T12:00:00.000Z" then Some 1714478400000
  else None.

(** Two purchases by bob, then one by alice. *)
Definition threeRequests : list (option User.t * Entropy) :=
  [(bob, env1); (bob, env2); (alice, env3)].

(* ================================================================== *)
(** ** Fixtures for the routes *)

(** The token check of the fixtures: one token, signed for bob. *)
Definition verify0 (token : string) : option User.t :=
  if String.eqb token "tok-bob" then bob else None.

(** A session of alice, sent together with bob's token. *)
Definition aliceSession : Session.t :=
  Session.mk (Some "alice") None (Some "user")
             (Some (Cookie.mk (Some 3600000) (Some 1714478400000))).
Definition mixedRequest : Request := mkReq (Some aliceSession) (Some "Bearer tok-bob").
Definition tokenRequest : Request := mkReq None (Some "Bearer tok-bob").

(* ================================================================== *)
(** ** Vocabulary and fixtures for the user store *)

(** The records a listing shows. *)
Definition usersOf (out : Users.outcome Users.Reply) : list Users.safe :=
  match out with
  | Users.Returned (Users.mkReply _ (Users.BUsers _ _ _ us) _) => us
  | _ => []
  end.


Definition dave : Users.t :=
  Users.mk "dave" "Dave" "dave@example.com" "$2b$10$hash-d" None
           "2024-04-01T08:00:00.000Z" None.
Definition erin : Users.t :=
  Users.mk "erin" "Erin" "erin@example.com" "$2b$10$hash-e" (Some "admin")
           "2024-04-02T08:00:00.000Z" None.
Definition frank : Users.t :=
  Users.mk "frank" "Frank" "frank@example.com" "$2b$10$hash-f" (Some "user")
           "2024-04-03T08:00:00.000Z" None.

Definition registry : list Users.t := [dave; erin; frank].

Definition uworld (users : list Users.t) : Users.World :=
  Users.mkWorld (Users.mkDisk (Some (Users.Json (Users.Array users))) [])
                Fulfilled None None.

(** [req.user] of dave and of erin behind [authenticate]. *)
Definition asDave : option User.t := Some (User.mk (Some "dave") (Some "user") None).
Definition asErin : option User.t := Some (User.mk (Some "erin") (Some "admin") None).
Definition daveSession : Session.t := Session.mk (Some "dave") None (Some "user") None.

(* ================================================================== *)
(** ** Fixtures for a failed write *)

(** A purchase whose write fails for lack of space, up to its answer. *)
Definition failingPurchase : list label :=
  [ Arrive (BuyTicket alice env1);
    Resume 0; ReadDone 0 None; Resume 0; WriteDone (Some "ENOSPC"); Resume 0 ]%nat.

(** Afterwards: a purchase and a draw by an administrator, in flight
    together, on a disk that would accept their writes. *)
Definition afterwards : list label :=
  [ Arrive (BuyTicket bob env2); Arrive (ExecuteDraw root env3);
    Resume 1; Resume 2; ReadDone 2 None; ReadDone 1 None;
    Resume 1; Resume 2; WriteDone None; WriteDone None;
    Resume 1; Resume 2 ]%nat.

(* ================================================================== *)
(** * Theorems *)

(* ------------------------------------------------------------------ *)
(** ** Number sets *)

Section NumSetFacts.
Import NumSet.

Lemma has_true s x : has s x = true ↔ x ∈ s.
Proof. unfold has. apply bool_decide_eq_true. Qed.

Lemma elem_of_add s x y : y ∈ add x s ↔ y = x ∨ y ∈ s.
Proof.
  unfold add. destruct (has s x) eqn:E.
  - apply has_true in E. split; [tauto|]. by intros [->|?].
  - rewrite elem_of_app, list_elem_of_singleton. tauto.
Qed.

Lemma NoDup_add s x : NoDup s → NoDup (add x s).
Proof.
  intros Hs. unfold add. destruct (has s x) eqn:E; [done|].
  apply NoDup_app. split_and!; [done| |apply NoDup_singleton].
  intros y Hy ->%list_elem_of_singleton.
  apply has_true in Hy. congruence.
Qed.

Lemma size_add_le s x : (size (add x s) ≤ S (size s))%nat.
Proof.
  unfold add, size. destruct (has s x); [lia|].
  rewrite length_app. simpl. lia.
Qed.


Lemma of_list_acc l s :
  NoDup s →
  NoDup (foldl (λ s x, add x s) s l)
  ∧ ∀ y, y ∈ foldl (λ s x, add x s) s l ↔ y ∈ s ∨ y ∈ l.
Proof.
  revert s. induction l as [|x l IH]; intros s Hs; simpl.
  - split; [done|]. intros y. rewrite elem_of_nil. tauto.
  - destruct (IH (add x s) (NoDup_add _ _ Hs)) as [Hn He]. split; [done|].
    intros y. rewrite He, elem_of_add, elem_of_cons. tauto.
Qed.

Lemma elem_of_of_list l y : y ∈ of_list l ↔ y ∈ l.
Proof.
  unfold of_list. destruct (of_list_acc l empty) as [_ He]; [constructor|].
  rewrite He. unfold empty. rewrite elem_of_nil. tauto.
Qed.

Lemma NoDup_of_list l : NoDup (of_list l).
Proof. apply (of_list_acc l empty). constructor. Qed.
End NumSetFacts.

(* ------------------------------------------------------------------ *)
(** ** The number generator *)

Lemma pick_range r : 1 ≤ pick r ≤ 49.
Proof.
  unfold pick, Math.floor.
  pose proof (Math.value_range r) as H.
  apply andb_true_iff in H as [H0 H1].
  apply Qle_bool_iff in H0.
  apply negb_true_iff in H1.
  assert (Hlt : (Math.value r < 1)%Q).
  { apply Qnot_le_lt. intros Hle. apply Qle_bool_iff in Hle. congruence. }
  assert (Hlo : 0 ≤ Qfloor (Math.value r * 49)).
  { change 0 with (Qfloor 0). apply Qfloor_resp_le.
    apply Qmult_le_0_compat; [done|]. discriminate. }
  assert (Hhi : Qfloor (Math.value r * 49) < 49).
  { rewrite Zlt_Qlt. eapply Qle_lt_trans; [apply Qfloor_le|].
    apply Qlt_le_trans with (1 * 49)%Q; [|discriminate].
    apply Qmult_lt_compat_r; [reflexivity|done]. }
  lia.
Qed.

Lemma generateLoop_inv rnd : ∀ s out,
  NoDup s → Forall (λ n, 1 ≤ n ≤ 49) s → (NumSet.size s ≤ 6)%nat →
  generateLoop s rnd = Some out →
  NoDup out ∧ Forall (λ n, 1 ≤ n ≤ 49) out ∧ length out = 6%nat.
Proof.
  induction rnd as [|r rnd IH]; intros s out Hnd Hrange Hsize; simpl;
    case_bool_decide as Hlt; intros Hout; simplify_eq.
  - unfold NumSet.size in *. split_and!; [done..|lia].
  - apply (IH (NumSet.add (pick r) s)); [by apply NoDup_add| | |done].
    + apply Forall_forall. intros y [->|Hy]%elem_of_add; [apply pick_range|].
      by eapply Forall_forall in Hrange.
    + pose proof (size_add_le s (pick r)). lia.
  - unfold NumSet.size in *. split_and!; [done..|lia].
Qed.



Lemma sortNumbers_perm l : sortNumbers l ≡ₚ l.
Proof. apply merge_sort_Permutation. Qed.

Lemma sortNumbers_sorted l : Sorted Z.le (sortNumbers l).
Proof. apply (Sorted_merge_sort Z.le). Qed.

Lemma generateTicketNumbers_valid rnd numbers :
  generateTicketNumbers rnd = Some numbers → validNumbers numbers.
Proof.
  unfold generateTicketNumbers. intros H.
  destruct (generateLoop NumSet.empty rnd) as [out|] eqn:E; simplify_eq/=.
  apply generateLoop_inv in E as (Hnd & Hr & Hl);
    [|constructor|constructor|unfold NumSet.size, NumSet.empty; simpl; lia].
  unfold validNumbers, NumSet.to_list.
  pose proof (sortNumbers_perm out) as Hp.
  split_and!.
  - by rewrite Hp.
  - by rewrite Hp.
  - by rewrite Hp.
  - apply sortNumbers_sorted.
Qed.


(* ------------------------------------------------------------------ *)
(** ** Match counting and prizes *)

Lemma countMatches_filter t d :
  countMatches t d = length (filter (λ n, n ∈ d) t).
Proof.
  unfold countMatches. f_equal. apply list_filter_iff. intros n.
  rewrite Is_true_true, has_true. apply elem_of_of_list.
Qed.

Lemma countMatches_intersection t d :
  NoDup t →
  countMatches t d = size (list_to_set t ∩ list_to_set d : gset Z).
Proof.
  intros Hnd. rewrite countMatches_filter.
  rewrite <- (size_list_to_set (C:=gset Z)) by by apply NoDup_filter.
  f_equal. apply set_eq. intros n.
  rewrite elem_of_intersection, !elem_of_list_to_set, list_elem_of_filter. tauto.
Qed.

Lemma countMatches_reorder t t' d d' :
  t ≡ₚ t' → d ≡ₚ d' → countMatches t d = countMatches t' d'.
Proof.
  intros Ht Hd. rewrite !countMatches_filter.
  rewrite (list_filter_iff (λ n, n ∈ d) (λ n, n ∈ d')).
  - by rewrite Ht.
  - intros n. by rewrite Hd.
Qed.

(** C6, amended.  For two number sets listed in any order, [countMatches]
    is the cardinality of their intersection; reordering either argument
    never changes [countMatches]; and the prize is "Jackpot!" (with the
    exclamation mark) for 6 matches, "Big prize" for 5, "Small prize" for 4
    and "No prize" for any other count. *)
Theorem countMatches_and_prizes :
  (∀ (T D : gset Z) t d,
     t ≡ₚ elements T → d ≡ₚ elements D → countMatches t d = size (T ∩ D))
  ∧ (∀ t t' d d', t ≡ₚ t' → d ≡ₚ d' → countMatches t d = countMatches t' d')
  ∧ prizeFromMatches 6 = "Jackpot!"
  ∧ prizeFromMatches 5 = "Big prize"
  ∧ prizeFromMatches 4 = "Small prize"
  ∧ (∀ m, m ≠ 6%nat → m ≠ 5%nat → m ≠ 4%nat → prizeFromMatches m = "No prize").
Proof.
  split_and!; try done.
  - intros T D t d Ht Hd.
    rewrite countMatches_intersection by (rewrite Ht; apply NoDup_elements).
    f_equal. rewrite Ht, Hd. by rewrite !list_to_set_elements_L.
  - apply countMatches_reorder.
  - intros m H6 H5 H4. by do 7 (destruct m as [|m]; try done).
Qed.

Lemma countMatches_and_prizes_witness :
  countMatches [3; 12; 19; 27; 41; 49] [3; 8; 19; 27; 33; 44]
  = size (list_to_set [3; 12; 19; 27; 41; 49] ∩ list_to_set [3; 8; 19; 27; 33; 44] : gset Z)
  ∧ countMatches [49; 3; 27; 12; 41; 19] [44; 33; 27; 19; 8; 3] = 3%nat
  ∧ prizeFromMatches 3 = "No prize".
Proof.
  split_and!.
  - apply (proj1 countMatches_and_prizes).
    + symmetry. apply elements_list_to_set. refine (bool_decide_unpack _ _); vm_compute; exact I.
    + symmetry. apply elements_list_to_set. refine (bool_decide_unpack _ _); vm_compute; exact I.
  - rewrite (proj1 (proj2 countMatches_and_prizes)
               [49; 3; 27; 12; 41; 19] [3; 12; 19; 27; 41; 49]
               [44; 33; 27; 19; 8; 3] [3; 8; 19; 27; 33; 44]).
    + reflexivity.
    + refine (bool_decide_unpack _ _); vm_compute; exact I.
    + refine (bool_decide_unpack _ _); vm_compute; exact I.
  - apply (proj2 (proj2 (proj2 (proj2 (proj2 countMatches_and_prizes))))); discriminate.
Defined.

(** C6 as stated fails: the label for six matches is not "Jackpot". *)
Lemma prize_for_six_is_not_Jackpot : prizeFromMatches 6 ≠ "Jackpot".
Proof. discriminate. Qed.

(* ------------------------------------------------------------------ *)
(** ** Strings *)

Lemma substring_all s : String.substring 0 (String.length s) s = s.
Proof. induction s as [|c s IH]; simpl; [done|by rewrite IH]. Qed.

Lemma substring_append p s :
  String.substring (String.length p) (String.length s) (p +:+ s) = s.
Proof. induction p as [|c p IH]; simpl; [apply substring_all|done]. Qed.

Lemma length_append p s :
  String.length (p +:+ s) = (String.length p + String.length s)%nat.
Proof. induction p as [|c p IH]; simpl; [done|by rewrite IH]. Qed.

Lemma append_cons c p s : String c p +:+ s = String c (p +:+ s).
Proof. reflexivity. Qed.

Lemma substring_split s : ∀ k,
  (k ≤ String.length s)%nat →
  s = String.substring 0 k s +:+ String.substring k (String.length s - k) s.
Proof.
  induction s as [|c s IH]; intros [|k] Hk; simpl in *; try lia.
  - done.
  - by rewrite substring_all.
  - rewrite append_cons. f_equal. apply IH. lia.
Qed.

Lemma endsWith_spec s suffix :
  endsWith s suffix = true ↔ ∃ p, s = p +:+ suffix.
Proof.
  unfold endsWith. rewrite andb_true_iff, Nat.leb_le. split.
  - intros [Hle Heq]. apply String.eqb_eq in Heq.
    exists (String.substring 0 (String.length s - String.length suffix) s).
    pose proof (substring_split s (String.length s - String.length suffix)) as Hs.
    replace (String.length s - (String.length s - String.length suffix))%nat
      with (String.length suffix) in Hs by lia.
    rewrite Heq in Hs. apply Hs. lia.
  - intros [p ->]. rewrite length_append. split; [lia|].
    apply String.eqb_eq.
    replace (String.length p + String.length suffix - String.length suffix)%nat
      with (String.length p) by lia.
    apply substring_append.
Qed.

(* ------------------------------------------------------------------ *)
(** ** The admin predicate *)

Lemma truthy_spec v : truthy v = true ↔ ∃ s, v = Some s ∧ s ≠ "".
Proof.
  destruct v as [s|]; simpl.
  - rewrite negb_true_iff, String.eqb_neq. split; [eauto|]. by intros (? & [= ->] & ?).
  - split; [done|]. by intros (? & ? & ?).
Qed.

(** C7, amended.  [isAdmin] is true exactly when the identity is present and
    either its role is "admin", or its role is absent or empty and its
    e-mail is a string ending in "@admin.com".  A non-empty role other than
    "admin" settles the answer to false: the e-mail is not consulted. *)
Theorem isAdmin_prefers_role user :
  isAdmin user = true ↔
  ∃ u, user = Some u ∧
    (User.role u = Some "admin"
     ∨ ((User.role u = None ∨ User.role u = Some "")
        ∧ ∃ e p, User.email u = Some e ∧ e = p +:+ "@admin.com")).
Proof.
  destruct user as [u|]; simpl; [|split; [done|by intros (? & ? & ?)]].
  destruct (truthy (User.role u)) eqn:Ht.
  - apply truthy_spec in Ht as (s & Hs & Hne).
    rewrite bool_decide_eq_true. split.
    + intros ?. exists u. tauto.
    + intros (? & [= <-] & [?|[[?|?] _]]); [done|congruence..].
  - assert (Hrole : User.role u = None ∨ User.role u = Some "").
    { destruct (User.role u) as [s|] eqn:E; [|by left]. right.
      simpl in Ht. apply negb_false_iff, String.eqb_eq in Ht. by subst. }
    assert (Hna : User.role u ≠ Some "admin") by (destruct Hrole; congruence).
    destruct (User.email u) as [e|] eqn:Ee.
    + rewrite endsWith_spec. split.
      * intros [p ->]. exists u. split; [done|]. right. eauto.
      * intros (? & [= <-] & [?|[_ (e' & p & ? & ->)]]); [done|]. simplify_eq. eauto.
    + split; [done|].
      intros (? & [= <-] & [?|[_ (e' & p & ? & ->)]]); [done|]. congruence.
Qed.

Lemma isAdmin_prefers_role_witness :
  isAdmin root = true
  ∧ isAdmin (Some (User.mk (Some "dave") None (Some "dave@admin.com"))) = true.
Proof.
  split.
  - apply isAdmin_prefers_role. eexists. split; [reflexivity|]. left. reflexivity.
  - apply isAdmin_prefers_role. eexists. split; [reflexivity|]. right.
    split; [by left|]. exists "dave@admin.com", "dave". split; reflexivity.
Defined.

(** C7 as stated fails: for a user with role "user" and an address in the
    administrative domain the role test does not give true, the e-mail
    test would, and [isAdmin] is false. *)
Lemma isAdmin_ignores_email_of_plain_role :
  isAdmin carol = false ∧ isAdmin_as_specified carol = true.
Proof. by vm_compute. Qed.

(** The route guard lets through whoever [isAdmin] accepts; it is the more
    lenient of the two, and [draw] checks again. *)
Lemma isAdmin_adminOnly user : isAdmin user = true → adminOnly user = true.
Proof.
  destruct user as [u|]; simpl; [|done].
  destruct (truthy (User.role u)).
  - intros ->. done.
  - intros ->. apply orb_true_r.
Qed.

Lemma adminOnly_as_specified user : adminOnly user = isAdmin_as_specified user.
Proof. reflexivity. Qed.

(* ------------------------------------------------------------------ *)
(** ** Loading the ledger *)

Lemma loadDB_bind {B} (f : DB → prog B) :
  ∃ k, loadDB ≫= f = ReadFile k ∧ ∀ r, k r = f (loadedFrom r).
Proof.
  eexists. split; [reflexivity|].
  intros [[code|]|[| |db]]; simpl; try done.
  by destruct (String.eqb code "ENOENT").
Qed.

Lemma exec_loadDB_bind {B} (f : DB → prog B) w :
  exec (loadDB ≫= f) w = exec (f (loaded w)) w.
Proof.
  destruct (loadDB_bind f) as (k & -> & Hk). simpl. by rewrite Hk.
Qed.

Lemma exec_loadDB w : exec loadDB w = (Returned (loaded w), w).
Proof.
  unfold loadDB, loaded, readJSON, readFile. simpl.
  destruct (fs_readFile (readFault w) (disk w)) as [[code|]|[| |db]]; simpl; try done.
  by destruct (String.eqb code "ENOENT").
Qed.

Lemma exec_readJSON w :
  exec readJSON w =
    (match fs_readFile (readFault w) (disk w) with
     | inl (FsError code) =>
         if String.eqb code "ENOENT" then Returned None else Thrown (FsError code)
     | inl SyntaxError | inr Malformed | inr JsonNull => Returned None
     | inr (JsonDoc db) => Returned (Some db)
     end, w).
Proof.
  unfold readJSON, readFile. simpl.
  destruct (fs_readFile (readFault w) (disk w)) as [[code|]|[| |db]]; simpl; try done.
  by destruct (String.eqb code "ENOENT").
Qed.

Lemma exec_readJSON_missing w :
  readFault w = None → file (disk w) = None →
  exec readJSON w = (Returned None, w).
Proof. intros Hf Hd. rewrite exec_readJSON. unfold fs_readFile. by rewrite Hf, Hd. Qed.

Lemma exec_readJSON_malformed w :
  readFault w = None → file (disk w) = Some Malformed →
  exec readJSON w = (Returned None, w).
Proof. intros Hf Hd. rewrite exec_readJSON. unfold fs_readFile. by rewrite Hf, Hd. Qed.

Lemma exec_readJSON_fault w code :
  readFault w = Some code → code ≠ "ENOENT" →
  exec readJSON w = (Thrown (FsError code), w).
Proof.
  intros Hf Hne. rewrite exec_readJSON. unfold fs_readFile. rewrite Hf.
  apply String.eqb_neq in Hne. by rewrite Hne.
Qed.

Lemma loaded_missing w : readFault w = None → file (disk w) = None → loaded w = empty.
Proof. intros Hf Hd. unfold loaded, fs_readFile. by rewrite Hf, Hd. Qed.

Lemma loaded_malformed w :
  readFault w = None → file (disk w) = Some Malformed → loaded w = empty.
Proof. intros Hf Hd. unfold loaded, fs_readFile. by rewrite Hf, Hd. Qed.

Lemma loaded_fault w code : readFault w = Some code → loaded w = empty.
Proof. intros Hf. unfold loaded, fs_readFile. by rewrite Hf. Qed.

(** C8, at an input where it fails.  The ledger file exists and reading it
    is refused (EACCES): [readJSON] throws the error, but [loadDB] catches
    it and returns the empty document, and the purchase that follows is
    answered 201 and replaces the ledger by a document that holds its
    ticket alone. *)
Theorem loadDB_hides_read_errors :
  exec readJSON (unreadable ledger1) = (Thrown (FsError "EACCES"), unreadable ledger1)
  ∧ exec loadDB (unreadable ledger1) = (Returned empty, unreadable ledger1)
  ∧ ∃ t w',
      exec (buyTicket cfg0 alice env1) (unreadable ledger1) = (Returned (res_ticket t), w')
      ∧ file (disk w') = Some (JsonDoc (mkDB [] [t])).
Proof.
  split_and!; [by vm_compute..|].
  eexists _, _. split; [vm_compute; reflexivity|]. by vm_compute.
Qed.

(* ------------------------------------------------------------------ *)
(** ** Buying a ticket *)

Lemma filter_filter {A} (f g : A → bool) l :
  List.filter g (List.filter f l) = List.filter (λ x, f x && g x) l.
Proof.
  induction l as [|x l IH]; simpl; [done|].
  destruct (f x); simpl; [destruct (g x)|]; by rewrite ?IH.
Qed.

Lemma exec_writeDBAtomic_ret {A} payload (a : A) w :
  exec (writeDBAtomic payload;; Ret a) w =
    match pendingWrite w, writeFault w with
    | Fulfilled, None =>
        (Returned a,
         mkWorld (mkDisk (Some (JsonDoc payload)) (written (disk w) ++ [payload]))
                 Fulfilled (readFault w) (writeFault w))
    | Fulfilled, Some code =>
        (Thrown (FsError code),
         mkWorld (disk w) (Rejected (FsError code)) (readFault w) (writeFault w))
    | Rejected e, _ =>
        (Thrown e, mkWorld (disk w) (Rejected e) (readFault w) (writeFault w))
    end.
Proof.
  simpl. destruct (pendingWrite w) as [|e]; simpl; [|done].
  by destruct (writeFault w).
Qed.

Lemma exec_buyTicket cfg user uid env w :
  user ≫= User.id = Some uid → uid ≠ "" →
  exec (buyTicket cfg user env) w =
    let db := loaded w in
    if bool_decide (MAX_TICKETS_PER_DRAW cfg ≤ Z.of_nat (pendingCount db)) then
      (Returned (mkRes 429 (JError ("Maximum of " +:+ pretty (MAX_TICKETS_PER_DRAW cfg)
                              +:+ " pending tickets reached. Try later."))), w)
    else if bool_decide (MAX_TICKETS_PER_USER cfg ≤ Z.of_nat (pendingCountOf uid db)) then
      (Returned (mkRes 429 (JError ("You already have " +:+ pretty (MAX_TICKETS_PER_USER cfg)
                              +:+ " pending tickets."))), w)
    else
      match generateTicketNumbers (rnd env) with
      | None => (Spinning, w)
      | Some numbers =>
          let newTicket := Ticket.mk (uuid env) uid numbers None (now env) in
          exec (writeDBAtomic (mkDB (draws db) (tickets db ++ [newTicket]));;
                Ret (res_ticket newTicket)) w
      end.
Proof.
  intros Hid Hne. unfold buyTicket. rewrite Hid.
  apply String.eqb_neq in Hne. cbn [truthy default]. rewrite Hne. cbn [negb].
  rewrite exec_loadDB_bind. cbv zeta.
  rewrite filter_filter. fold (pendingCount (loaded w)). fold (pendingCountOf uid (loaded w)).
  repeat case_bool_decide; try done.
  by destruct (generateTicketNumbers (rnd env)).
Qed.

Lemma exec_buyTicket_unauthenticated cfg user env w :
  truthy (user ≫= User.id) = false →
  exec (buyTicket cfg user env) w = (Returned res_unauthenticated, w).
Proof. intros Hid. unfold buyTicket. by rewrite Hid. Qed.

(** C5.  For an authenticated caller, on the ledger [loadDB] hands the
    handler: when the pending tickets number at least [MAX_TICKETS_PER_DRAW],
    or the caller's own pending tickets at least [MAX_TICKETS_PER_USER],
    [buyTicket] answers 429 and leaves the world as it was (the file, the
    history of writes and the write chain are unchanged: no ticket is
    appended, nothing is committed); when both counts are strictly below
    their limits, the generator returns and the write goes through, it
    answers 201 and the one document it commits is the loaded ledger with
    exactly one ticket appended, owned by the caller and pending. *)
Theorem buyTicket_capacity cfg user uid env w :
  user ≫= User.id = Some uid → uid ≠ "" →
  let db := loaded w in
  (MAX_TICKETS_PER_DRAW cfg ≤ Z.of_nat (pendingCount db)
   ∨ MAX_TICKETS_PER_USER cfg ≤ Z.of_nat (pendingCountOf uid db) →
   ∃ msg, exec (buyTicket cfg user env) w = (Returned (mkRes 429 (JError msg)), w))
  ∧ (Z.of_nat (pendingCount db) < MAX_TICKETS_PER_DRAW cfg →
     Z.of_nat (pendingCountOf uid db) < MAX_TICKETS_PER_USER cfg →
     ∀ numbers, generateTicketNumbers (rnd env) = Some numbers →
     pendingWrite w = Fulfilled → writeFault w = None →
     let newTicket := Ticket.mk (uuid env) uid numbers None (now env) in
     let db' := mkDB (draws db) (tickets db ++ [newTicket]) in
     exec (buyTicket cfg user env) w =
       (Returned (res_ticket newTicket),
        mkWorld (mkDisk (Some (JsonDoc db')) (written (disk w) ++ [db']))
                Fulfilled (readFault w) (writeFault w))).
Proof.
  intros Hid Hne db. split.
  - intros Hcap. rewrite (exec_buyTicket _ _ _ _ _ Hid Hne). cbv zeta. fold db.
    repeat case_bool_decide; eauto. lia.
  - intros Hg Hu numbers Hnum Hpw Hwf newTicket db'.
    rewrite (exec_buyTicket _ _ _ _ _ Hid Hne). cbv zeta. fold db.
    rewrite !bool_decide_eq_false_2 by lia.
    rewrite Hnum, exec_writeDBAtomic_ret, Hpw, Hwf. done.
Qed.

Lemma buyTicket_capacity_witness :
  (∃ msg, exec (buyTicket (configFromEnv (Some 1) None) bob env2) (world ledger1)
          = (Returned (mkRes 429 (JError msg)), world ledger1))
  ∧ (∃ msg, exec (buyTicket (configFromEnv None (Some 1)) alice env2) (world ledger1)
          = (Returned (mkRes 429 (JError msg)), world ledger1))
  ∧ exec (buyTicket (configFromEnv (Some 2) (Some 1)) bob env2) (world ledger1)
    = (Returned (res_ticket (Ticket.mk "id-2" "bob" [1; 8; 17; 25; 33; 49] None (now env2))),
       mkWorld
         (mkDisk
            (Some (JsonDoc (mkDB [draw0]
               [ticketB; ticketA;
                Ticket.mk "id-2" "bob" [1; 8; 17; 25; 33; 49] None (now env2)])))
            [mkDB [draw0]
               [ticketB; ticketA;
                Ticket.mk "id-2" "bob" [1; 8; 17; 25; 33; 49] None (now env2)]])
         Fulfilled None None).
Proof.
  split_and!.
  - apply (proj1 (buyTicket_capacity (configFromEnv (Some 1) None) bob "bob" env2
                    (world ledger1) eq_refl ltac:(discriminate))).
    left. vm_compute. discriminate.
  - apply (proj1 (buyTicket_capacity (configFromEnv None (Some 1)) alice "alice" env2
                    (world ledger1) eq_refl ltac:(discriminate))).
    right. vm_compute. discriminate.
  - apply (proj2 (buyTicket_capacity (configFromEnv (Some 2) (Some 1)) bob "bob" env2
                    (world ledger1) eq_refl ltac:(discriminate)));
      reflexivity.
Defined.

(* ------------------------------------------------------------------ *)
(** ** Running a draw *)

Lemma unreferenced_unfilled db d : unreferenced db d = true ↔ unfilled db d.
Proof.
  unfold unreferenced, unfilled. rewrite negb_true_iff. split.
  - intros Hex t Ht Heq.
    assert (existsb (λ t, bool_decide (Ticket.drawId t = Some (Draw.id d))) (tickets db) = true)
      as Hc; [|congruence].
    apply existsb_exists. exists t. split; [by apply list_elem_of_In|].
    by apply bool_decide_eq_true.
  - intros Hall. apply not_true_iff_false. intros (t & Ht & Heq)%existsb_exists.
    apply bool_decide_eq_true in Heq. apply list_elem_of_In in Ht. by eapply Hall.
Qed.

Lemma find_unreferenced_Some db :
  (∃ d, d ∈ draws db ∧ unfilled db d) → is_Some (List.find (unreferenced db) (draws db)).
Proof.
  intros (d & Hd & Hu).
  destruct (List.find (unreferenced db) (draws db)) eqn:E; [by eexists|].
  apply list_elem_of_In in Hd.
  pose proof (find_none _ _ E d Hd) as Hn.
  apply unreferenced_unfilled in Hu. congruence.
Qed.


Lemma exec_draw user env w :
  exec (draw user env) w =
    if isAdmin user then
      let db := loaded w in
      match List.find (unreferenced db) (draws db) with
      | Some _ => (Returned res_conflict, w)
      | None =>
          match generateTicketNumbers (rnd env) with
          | None => (Spinning, w)
          | Some numbers =>
              let newDraw := Draw.mk (uuid env) numbers (now env) in
              exec (writeDBAtomic (mkDB (draws db ++ [newDraw])
                                        (assign (uuid env) <$> tickets db));;
                    Ret (res_draw newDraw)) w
          end
      end
    else (Returned res_forbidden, w).
Proof.
  unfold draw. destruct (isAdmin user); [|done]. cbn [negb].
  rewrite exec_loadDB_bind. cbv zeta.
  destruct (List.find _ _); [done|].
  by destruct (generateTicketNumbers (rnd env)).
Qed.

(** C3.  When some draw of the loaded ledger has no ticket that refers to
    it, [draw] answers an administrator with 400, "There is already an
    active draw awaiting tickets." (anybody else with 403, the check that
    comes first), whatever the environment would have supplied for the new
    draw, and leaves the world as it was: the file, the history of writes
    and the write chain are unchanged, so no draw is created, no ticket is
    modified and nothing is committed. *)
Theorem draw_conflict user env w :
  (∃ d, d ∈ draws (loaded w) ∧ unfilled (loaded w) d) →
  exec (draw user env) w =
    (Returned (if isAdmin user then res_conflict else res_forbidden), w).
Proof.
  intros [d Hd]%find_unreferenced_Some. rewrite exec_draw.
  destruct (isAdmin user); [|done]. cbv zeta. by rewrite Hd.
Qed.

Lemma draw_conflict_witness :
  unreferenced ledger2 drawOpen = true
  ∧ exec (draw root env1) (world ledger2) = (Returned res_conflict, world ledger2)
  ∧ exec (draw alice env1) (world ledger2) = (Returned res_forbidden, world ledger2).
Proof.
  assert (∃ d, d ∈ draws (loaded (world ledger2)) ∧ unfilled (loaded (world ledger2)) d)
    as Hopen.
  { exists drawOpen. split.
    - apply list_elem_of_In. simpl. auto.
    - apply unreferenced_unfilled. reflexivity. }
  split_and!.
  - reflexivity.
  - exact (draw_conflict root env1 (world ledger2) Hopen).
  - exact (draw_conflict alice env1 (world ledger2) Hopen).
Defined.

Lemma assign_pending newId t :
  Ticket.drawId t = None →
  assign newId t =
    Ticket.mk (Ticket.id t) (Ticket.userId t) (Ticket.numbers t) (Some newId)
              (Ticket.purchasedAt t).
Proof. intros H. unfold assign, pending. by rewrite H. Qed.

Lemma assign_assigned newId t : Ticket.drawId t ≠ None → assign newId t = t.
Proof. intros H. unfold assign, pending. by destruct (Ticket.drawId t). Qed.

(** C4.  When [draw] answers 201: the answer carries the new draw, whose id
    is the fresh identifier; exactly one document is written, and it is the
    loaded ledger with the new draw appended to [draws] and with the same
    tickets in the same order, where every ticket that was pending now has
    the new draw's id as [drawId] and is otherwise unchanged, and every
    ticket that was already assigned is unchanged in all fields. *)
Theorem draw_assigns_pending user env w r w' :
  exec (draw user env) w = (Returned r, w') → status r = 201%nat →
  let db := loaded w in
  ∃ newDraw db',
    r = res_draw newDraw
    ∧ Draw.id newDraw = uuid env
    ∧ draws db' = draws db ++ [newDraw]
    ∧ length (tickets db') = length (tickets db)
    ∧ (∀ i t, tickets db !! i = Some t → Ticket.drawId t = None →
         tickets db' !! i =
           Some (Ticket.mk (Ticket.id t) (Ticket.userId t) (Ticket.numbers t)
                           (Some (Draw.id newDraw)) (Ticket.purchasedAt t)))
    ∧ (∀ i t, tickets db !! i = Some t → Ticket.drawId t ≠ None →
         tickets db' !! i = Some t)
    ∧ disk w' = mkDisk (Some (JsonDoc db')) (written (disk w) ++ [db']).
Proof.
  rewrite exec_draw. intros Hex Hst db.
  destruct (isAdmin user); [|by simplify_eq]. cbv zeta in Hex. fold db in Hex.
  destruct (List.find _ _); [by simplify_eq|].
  destruct (generateTicketNumbers (rnd env)) as [numbers|]; [|done].
  rewrite exec_writeDBAtomic_ret in Hex.
  destruct (pendingWrite w), (writeFault w); simplify_eq.
  exists (Draw.mk (uuid env) numbers (now env)).
  exists (mkDB (draws db ++ [Draw.mk (uuid env) numbers (now env)])
               (assign (uuid env) <$> tickets db)).
  split_and!; try done; simpl.
  - apply length_fmap.
  - intros i t Hi Hp. rewrite list_lookup_fmap, Hi. simpl.
    by rewrite (assign_pending _ _ Hp).
  - intros i t Hi Hp. rewrite list_lookup_fmap, Hi. simpl.
    by rewrite (assign_assigned _ _ Hp).
Qed.

Lemma draw_assigns_pending_witness :
  ∃ newDraw db',
    Draw.id newDraw = "id-1"
    ∧ draws db' = [draw0; newDraw]
    ∧ tickets db' !! 0%nat = Some ticketB
    ∧ tickets db' !! 1%nat =
        Some (Ticket.mk "t-a" "alice" [3; 12; 19; 27; 41; 49] (Some "id-1")
                        "2024-04-30T09:00:00.000Z")
    ∧ disk (exec (draw root env1) (world ledger1)).2 = mkDisk (Some (JsonDoc db')) [db'].
Proof.
  destruct (draw_assigns_pending root env1 (world ledger1)
              (res_draw (Draw.mk "id-1" [1; 8; 17; 25; 33; 49] (now env1)))
              (exec (draw root env1) (world ledger1)).2)
    as (newDraw & db' & Hr & Hid & Hdraws & Hlen & Hpend & Hkept & Hdisk).
  - vm_compute. reflexivity.
  - reflexivity.
  - exists newDraw, db'. split_and!.
    + exact Hid.
    + exact Hdraws.
    + apply (Hkept 0%nat ticketB); [reflexivity|discriminate].
    + rewrite Hid in Hpend. apply (Hpend 1%nat ticketA); reflexivity.
    + exact Hdisk.
Defined.

(* ------------------------------------------------------------------ *)
(** ** Number sets of tickets and draws *)





(* ------------------------------------------------------------------ *)
(** ** The event loop *)

Lemma run_app cfg t1 t2 s :
  run cfg (t1 ++ t2) s = run cfg t1 s ≫= run cfg t2.
Proof.
  revert s. induction t1 as [|l t1 IH]; intros s; simpl; [done|].
  destruct (step cfg l s); simpl; [apply IH|done].
Qed.






(* ------------------------------------------------------------------ *)
(** ** Purchases in flight together *)

(** Served one after the other, the two purchases of [overlapping] are both
    kept. *)
Example purchases_in_turn_keep_both :
  ∃ s tA tB,
    run cfg0 oneAfterTheOther (boot (mkDisk (Some (JsonDoc ledger1)) [])) = Some s
    ∧ tasks s !! 0%nat = Some (BuyTicket alice env1, Done (res_ticket tA))
    ∧ tasks s !! 1%nat = Some (BuyTicket bob env2, Done (res_ticket tB))
    ∧ file (sdisk s) = Some (JsonDoc (mkDB (draws ledger1) (tickets ledger1 ++ [tA; tB]))).
Proof. eexists _, _, _. split; [vm_compute; reflexivity|]. by vm_compute. Qed.

(** C1, at an input where it fails.  Two purchases are in flight together on
    a ledger of two tickets, and both reads finish before either write.
    Both are answered 201 and both writes are committed, in submission
    order; the second document was built from the ledger read before the
    first write and replaces it, so the file ends with three tickets, not
    four: the first purchase is lost. *)
Theorem overlapping_purchases_lose_a_ticket :
  ∃ s tA tB,
    run cfg0 overlapping (boot (mkDisk (Some (JsonDoc ledger1)) [])) = Some s
    ∧ tasks s !! 0%nat = Some (BuyTicket alice env1, Done (res_ticket tA))
    ∧ tasks s !! 1%nat = Some (BuyTicket bob env2, Done (res_ticket tB))
    ∧ chain s = []
    ∧ written (sdisk s) =
        [mkDB (draws ledger1) (tickets ledger1 ++ [tA]);
         mkDB (draws ledger1) (tickets ledger1 ++ [tB])]
    ∧ file (sdisk s) = Some (JsonDoc (mkDB (draws ledger1) (tickets ledger1 ++ [tB]))).
Proof. eexists _, _, _. split; [vm_compute; reflexivity|]. by vm_compute. Qed.

(* ------------------------------------------------------------------ *)
(** ** A rejected write chain *)

Lemma step_rejected cfg e l s s' :
  settledTail s = Rejected e → step cfg l s = Some s' →
  settledTail s' = Rejected e ∧ sdisk s' = sdisk s.
Proof.
  intros Hrej. unfold step. destruct (blocked s); [done|].
  destruct l as [o|rid|rid fault|fault].
  - by intros [= <-].
  - destruct (tasks s !! rid) as [[o [p| | | | |]]|]; try done.
    intros [= <-]. by destruct p.
  - destruct (tasks s !! rid) as [[o [p|k| | | |]]|]; try done.
    by intros [= <-].
  - destruct (chain s) as [|[rid payload] rest]; [done|].
    destruct (tasks s !! rid) as [[o [p|k|k| | |]]|]; try done.
    rewrite Hrej. simpl. by intros [= <-].
Qed.

(** Once a write has failed, no later write reaches the file. *)
Lemma run_rejected cfg e trace : ∀ s s',
  settledTail s = Rejected e → run cfg trace s = Some s' →
  settledTail s' = Rejected e ∧ sdisk s' = sdisk s.
Proof.
  induction trace as [|l trace IH]; intros s s' Hrej; simpl.
  - by intros [= <-].
  - destruct (step cfg l s) as [s1|] eqn:Es; [|done].
    destruct (step_rejected _ _ _ _ _ Hrej Es) as [Hrej1 Hd1].
    intros Hrun. destruct (IH _ _ Hrej1 Hrun) as [? ?]. split; congruence.
Qed.

(** C2, at an input where it fails.  A purchase whose write fails for lack of
    space leaves [pendingWrite] rejected.  The next purchase arrives after
    the first has been answered and the disk would accept its write, but
    its callback is chained with [then] on the rejected promise and is
    never called: the request fails with the first request's error and the
    file is never written. *)
Theorem failed_write_blocks_later_writes :
  ∃ s,
    run cfg0 afterFailure (boot (mkDisk (Some (JsonDoc ledger1)) [])) = Some s
    ∧ tasks s !! 0%nat = Some (BuyTicket alice env1, Failed (FsError "ENOSPC"))
    ∧ tasks s !! 1%nat = Some (BuyTicket bob env2, Failed (FsError "ENOSPC"))
    ∧ chain s = []
    ∧ settledTail s = Rejected (FsError "ENOSPC")
    ∧ sdisk s = mkDisk (Some (JsonDoc ledger1)) [].
Proof. eexists. split; [vm_compute; reflexivity|]. by vm_compute. Qed.

(* ------------------------------------------------------------------ *)
(** ** A ledger that holds an unfilled draw *)

Section OpenDraw.
Variable cfg : Config.
Variable d : string.










End OpenDraw.

(* ------------------------------------------------------------------ *)
(** ** A draw that finds no pending ticket *)




(** Both assumptions on the surroundings are needed.  A purchase that read
    the ledger before the draw was written queues a document without the
    new draw, which replaces the draw's document (the lost update again);
    and a read that fails makes [loadDB] hand out the empty ledger.  Either
    way a later draw is answered 201. *)
Example draw_succeeds_again_after_lost_update :
  ∃ s d1 d2,
    run cfg0 purchaseAcrossDraw (boot (mkDisk (Some (JsonDoc ledger3)) [])) = Some s
    ∧ tasks s !! 1%nat = Some (ExecuteDraw root env1, Done (res_draw d1))
    ∧ tasks s !! 2%nat = Some (ExecuteDraw root env3, Done (res_draw d2)).
Proof. eexists _, _, _. split; [vm_compute; reflexivity|]. by vm_compute. Qed.

Example draw_succeeds_again_after_read_error :
  ∃ s d1 d2,
    run cfg0 drawAfterReadError (boot (mkDisk (Some (JsonDoc ledger3)) [])) = Some s
    ∧ tasks s !! 0%nat = Some (ExecuteDraw root env1, Done (res_draw d1))
    ∧ tasks s !! 1%nat = Some (ExecuteDraw root env3, Done (res_draw d2)).
Proof. eexists _, _, _. split; [vm_compute; reflexivity|]. by vm_compute. Qed.

(* ------------------------------------------------------------------ *)
(** ** Properties every written document keeps *)

Lemma find_unreferenced_None_inv db :
  List.find (unreferenced db) (draws db) = None → ∀ d, d ∈ draws db → ¬ unfilled db d.
Proof.
  intros Hnone d Hd Hun. apply list_elem_of_In in Hd.
  pose proof (find_none _ _ Hnone d Hd) as Hf.
  apply unreferenced_unfilled in Hun. congruence.
Qed.

Section Keeps.
Variable cfg : Config.
Variable I : DB → Prop.
Hypothesis HI : ledgerInvariant cfg I.

Lemma keeps_buyTicket user env : keepsProg I (buyTicket cfg user env).
Proof.
  unfold buyTicket. destruct (truthy (user ≫= User.id)) eqn:Hid; [|by constructor].
  apply truthy_spec in Hid as (uid & Hid & Hne). cbn [negb].
  assert (default "" (user ≫= User.id) = uid) as Huid by by rewrite Hid.
  revert Huid. generalize (default "" (user ≫= User.id)). intros ? ->.
  destruct (loadDB_bind (B:=Response)
    (λ db,
      let ticketsWithoutDraw := List.filter pending (tickets db) in
      if bool_decide (MAX_TICKETS_PER_DRAW cfg ≤ Z.of_nat (length ticketsWithoutDraw)) then
        Ret (mkRes 429 (JError ("Maximum of " +:+ pretty (MAX_TICKETS_PER_DRAW cfg)
                                +:+ " pending tickets reached. Try later.")))
      else
        let myPending :=
          List.filter (λ t, String.eqb (Ticket.userId t) uid) ticketsWithoutDraw in
        if bool_decide (MAX_TICKETS_PER_USER cfg ≤ Z.of_nat (length myPending)) then
          Ret (mkRes 429 (JError ("You already have " +:+ pretty (MAX_TICKETS_PER_USER cfg)
                                  +:+ " pending tickets.")))
        else
          match generateTicketNumbers (rnd env) with
          | None => Spin
          | Some numbers =>
              let newTicket := Ticket.mk (uuid env) uid numbers None (now env) in
              let db := mkDB (draws db) (tickets db ++ [newTicket]) in
              writeDBAtomic db;;
              Ret (mkRes 201 (JTicket "Ticket purchased successfully." newTicket))
          end)) as (k & Hk & Hkr).
  cbv zeta. cbv zeta in Hk. rewrite Hk.
  apply keeps_ReadFile. intros r Hr. rewrite Hkr. cbv beta zeta.
  rewrite filter_filter.
  fold (pendingCount (loadedFrom r)). fold (pendingCountOf uid (loadedFrom r)).
  case_bool_decide as Hg; [by constructor|].
  case_bool_decide as Hu; [by constructor|].
  destruct (generateTicketNumbers (rnd env)) as [numbers|] eqn:Hnum; [|by constructor].
  apply keeps_Enqueue.
  - apply (li_buy _ _ HI); [done|done|lia|lia|].
    by eapply generateTicketNumbers_valid.
  - intros [|e]; simpl; constructor.
Qed.

Lemma keeps_draw user env : keepsProg I (draw user env).
Proof.
  unfold draw. destruct (isAdmin user); cbn [negb]; [|by constructor].
  destruct (loadDB_bind (B:=Response)
    (λ db,
      let openDraw := List.find (unreferenced db) (draws db) in
      match openDraw with
      | Some _ =>
          Ret (mkRes 400 (JError "There is already an active draw awaiting tickets."))
      | None =>
          match generateTicketNumbers (rnd env) with
          | None => Spin
          | Some numbers =>
              let newDraw := Draw.mk (uuid env) numbers (now env) in
              let db := mkDB (draws db ++ [newDraw])
                             (assign (Draw.id newDraw) <$> tickets db) in
              writeDBAtomic db;;
              Ret (mkRes 201 (JDraw "New draw created." newDraw))
          end
      end)) as (k & Hk & Hkr).
  cbv zeta in Hk. rewrite Hk.
  apply keeps_ReadFile. intros r Hr. rewrite Hkr. cbv beta zeta.
  destruct (List.find _ _) eqn:Hfind; [by constructor|].
  destruct (generateTicketNumbers (rnd env)) as [numbers|] eqn:Hnum; [|by constructor].
  apply keeps_Enqueue.
  - apply (li_draw _ _ HI); [done|by apply find_unreferenced_None_inv|].
    by eapply generateTicketNumbers_valid.
  - intros [|e]; simpl; constructor.
Qed.

Lemma keeps_handler o : keepsProg I (handler cfg o).
Proof. destruct o; [apply keeps_buyTicket|apply keeps_draw]. Qed.

Lemma keeps_read fault d :
  (∀ db, file d = Some (JsonDoc db) → I db) → I (loadedFrom (fs_readFile fault d)).
Proof.
  intros Hfile. unfold fs_readFile.
  destruct fault; [apply (li_empty _ _ HI)|].
  destruct (file d) as [[| |db]|]; simpl; try apply (li_empty _ _ HI). by apply Hfile.
Qed.

Lemma keeps_insert (ts : list (op * task)) rid o t :
  Forall (λ ot, keepsTask I ot.2) ts → keepsTask I t →
  Forall (λ ot, keepsTask I ot.2) (<[rid := (o, t)]> ts).
Proof. intros Hts Ht. by apply Forall_insert. Qed.

Lemma step_keeps l s s' : keepsInv I s → step cfg l s = Some s' → keepsInv I s'.
Proof.
  intros [Hfile Hwr Hchain Htasks]. unfold step. destruct (blocked s); [done|].
  destruct l as [o|rid|rid fault|fault].
  - intros [= <-]. constructor; simpl; try done.
    apply Forall_app. split; [done|]. apply Forall_singleton. apply keeps_handler.
  - destruct (tasks s !! rid) as [[o [p| | | | |]]|] eqn:Hrid; try done.
    intros [= <-].
    pose proof (Forall_lookup_1 _ _ _ _ Htasks Hrid) as Hp. simpl in Hp.
    inversion Hp as [r|e| |k Hk|payload k Hpay Hk]; subst; unfold advance;
      constructor; simpl; try done; try (by apply keeps_insert).
    apply Forall_app. split; [done|]. by apply Forall_singleton.
  - destruct (tasks s !! rid) as [[o [p|k| | | |]]|] eqn:Hrid; try done.
    intros [= <-].
    pose proof (Forall_lookup_1 _ _ _ _ Htasks Hrid) as Hk. simpl in Hk.
    constructor; simpl; try done.
    apply keeps_insert; [done|]. simpl. apply Hk. by apply keeps_read.
  - destruct (chain s) as [|[rid payload] rest] eqn:Hc; [done|].
    destruct (tasks s !! rid) as [[o [p|k|k| | |]]|] eqn:Hrid; try done.
    destruct (then_ (settledTail s) (writeJSON fault payload) (sdisk s))
      as [dsk st] eqn:Et.
    intros [= <-].
    pose proof (Forall_lookup_1 _ _ _ _ Htasks Hrid) as Hk. simpl in Hk.
    apply Forall_cons in Hchain as [Hp Hrest].
    assert ((∀ db, file dsk = Some (JsonDoc db) → I db) ∧ Forall I (written dsk))
      as [Hfile' Hwr'].
    { unfold then_, writeJSON in Et.
      destruct (settledTail s), fault; simplify_eq; try done.
      simpl. split; [by intros db [= <-]|].
      apply Forall_app. split; [done|]. by apply Forall_singleton. }
    constructor; simpl; try done.
    apply keeps_insert; [done|]. simpl. apply Hk.
Qed.

Lemma run_keeps trace : ∀ s s',
  keepsInv I s → run cfg trace s = Some s' → keepsInv I s'.
Proof.
  induction trace as [|l trace IH]; intros s s' Hinv; simpl.
  - by intros [= <-].
  - destruct (step cfg l s) as [s1|] eqn:Es; [|done].
    apply IH. by eapply step_keeps.
Qed.

Lemma boot_keeps f :
  (∀ db, f = Some (JsonDoc db) → I db) → keepsInv I (boot (mkDisk f [])).
Proof. intros Hf. constructor; simpl; by try constructor. Qed.

(** From a start of the server, whatever requests arrive and however they
    interleave, [I] holds of every document written and of the file. *)
Lemma always_kept f trace s :
  (∀ db, f = Some (JsonDoc db) → I db) →
  run cfg trace (boot (mkDisk f [])) = Some s →
  Forall I (written (sdisk s)) ∧ ∀ db, file (sdisk s) = Some (JsonDoc db) → I db.
Proof.
  intros Hf Hrun.
  destruct (run_keeps _ _ _ (boot_keeps f Hf) Hrun) as [Hfile Hwr _ _]. done.
Qed.
End Keeps.

Lemma pending_assign newId t : pending (assign newId t) = false.
Proof. unfold assign. destruct (pending t) eqn:E; [done|]. by rewrite E. Qed.

Lemma filter_pending_assign newId (ts : list Ticket.t) :
  List.filter pending (assign newId <$> ts) = [].
Proof.
  induction ts as [|t ts IH]; simpl; [done|]. by rewrite pending_assign.
Qed.

Lemma pendingCount_assign newId ds ts :
  pendingCount (mkDB ds (assign newId <$> ts)) = 0%nat.
Proof. unfold pendingCount. simpl. by rewrite filter_pending_assign. Qed.

Lemma pendingCountOf_le uid db : (pendingCountOf uid db ≤ pendingCount db)%nat.
Proof.
  unfold pendingCountOf, pendingCount.
  induction (tickets db) as [|t ts IH]; simpl; [done|].
  destruct (pending t); simpl; [|done].
  destruct (String.eqb _ _); simpl; lia.
Qed.

Lemma drawId_assign_assigned newId t d :
  Ticket.drawId t = Some d → assign newId t = t.
Proof. intros H. apply assign_assigned. by rewrite H. Qed.

Lemma drawId_assign newId t d :
  Ticket.drawId (assign newId t) = Some d → Ticket.drawId t = Some d ∨ d = newId.
Proof.
  unfold assign. destruct (pending t); simpl; [|by left]. intros [= <-]. by right.
Qed.

Lemma referencesResolve_invariant cfg : ledgerInvariant cfg referencesResolve.
Proof.
  constructor.
  - intros t d Ht. by apply elem_of_nil in Ht.
  - intros db id uid numbers at_ Hdb _ _ _ _ t d. simpl.
    intros [Ht| ->%list_elem_of_singleton]%elem_of_app; [by apply Hdb|done].
  - intros db id numbers at_ Hdb _ _ t d. simpl.
    intros (t0 & -> & Ht0)%list_elem_of_fmap [Hd| ->]%drawId_assign.
    + destruct (Hdb _ _ Ht0 Hd) as (dr & Hdr & Hid).
      exists dr. split; [|done]. apply elem_of_app. by left.
    + eexists. split; [apply elem_of_app; right; by apply list_elem_of_singleton|done].
Qed.


Lemma withinLimits_invariant cfg : ledgerInvariant cfg (withinLimits cfg).
Proof.
  constructor.
  - split; [|intros uid]; unfold pendingCount, pendingCountOf; simpl; lia.
  - intros db id uid numbers at_ [Hg Hu] _ Hlg Hlu _. split.
    + unfold pendingCount in *. simpl. rewrite List.filter_app, length_app. simpl. lia.
    + intros uid'. specialize (Hu uid').
      unfold pendingCountOf in *. simpl. rewrite List.filter_app, length_app. simpl.
      destruct (String.eqb uid uid') eqn:E; simpl; [|lia].
      apply String.eqb_eq in E as <-. lia.
  - intros db id numbers at_ _ _ _. split.
    + rewrite pendingCount_assign. lia.
    + intros uid.
      pose proof (pendingCountOf_le uid
        (mkDB (draws db ++ [Draw.mk id numbers at_]) (assign id <$> tickets db))) as Hle.
      rewrite pendingCount_assign in Hle. lia.
Qed.

Lemma onlyLastUnfilled_invariant cfg : ledgerInvariant cfg onlyLastUnfilled.
Proof.
  constructor.
  - intros i d Hi. simpl in Hi. by rewrite lookup_nil in Hi.
  - intros db id uid numbers at_ Hdb _ _ _ _ i d Hi Hun. simpl in *.
    apply (Hdb i d Hi). intros t Ht. apply Hun. simpl. apply elem_of_app. by left.
  - intros db id numbers at_ _ Hfilled _ i d Hi Hun. simpl in *.
    rewrite length_app. simpl.
    apply lookup_app_Some in Hi as [Hi|[Hlen Hi]].
    + exfalso. apply (Hfilled d); [by eapply list_elem_of_lookup_2|].
      intros t Ht Hd. apply (Hun (assign id t)); simpl.
      * apply list_elem_of_fmap. eauto.
      * by rewrite (drawId_assign_assigned _ _ _ Hd).
    + apply list_lookup_singleton_Some in Hi as [Hi _]. lia.
Qed.

(** X1.  Whatever requests arrive, however the event loop interleaves them
    and whichever reads and writes fail: if the ledger file at start is
    missing, unparsable, [null] or a document in which every ticket's
    [drawId] names a draw of the document, then every document written and
    the document in the file have that property. *)
Theorem references_always_resolve cfg f trace s :
  (∀ db, f = Some (JsonDoc db) → referencesResolve db) →
  run cfg trace (boot (mkDisk f [])) = Some s →
  Forall referencesResolve (written (sdisk s))
  ∧ ∀ db, file (sdisk s) = Some (JsonDoc db) → referencesResolve db.
Proof. apply always_kept, referencesResolve_invariant. Qed.


(** X3.  Under the same conditions, if the starting document has at most
    [MAX_TICKETS_PER_DRAW] pending tickets, and at most [MAX_TICKETS_PER_USER]
    of any one user, so has every document written and the file, also when
    purchases overlap. *)
Theorem pending_always_within_limits cfg f trace s :
  (∀ db, f = Some (JsonDoc db) → withinLimits cfg db) →
  run cfg trace (boot (mkDisk f [])) = Some s →
  Forall (withinLimits cfg) (written (sdisk s))
  ∧ ∀ db, file (sdisk s) = Some (JsonDoc db) → withinLimits cfg db.
Proof. apply always_kept, withinLimits_invariant. Qed.

(** X4.  Under the same conditions, if in the starting document only the last
    draw can be without tickets, the same holds of every document written and
    of the file: the guard of [draw] never lets two unfilled draws in. *)
Theorem never_two_unfilled_draws cfg f trace s :
  (∀ db, f = Some (JsonDoc db) → onlyLastUnfilled db) →
  run cfg trace (boot (mkDisk f [])) = Some s →
  Forall onlyLastUnfilled (written (sdisk s))
  ∧ ∀ db, file (sdisk s) = Some (JsonDoc db) → onlyLastUnfilled db.
Proof. apply always_kept, onlyLastUnfilled_invariant. Qed.

(* ------------------------------------------------------------------ *)
(** ** A 201 is sent only once the document is stored *)

Lemma announcedIn_mono W W' r :
  (∀ db, db ∈ W → db ∈ W') → announcedIn W r → announcedIn W' r.
Proof.
  intros Hsub. unfold announcedIn. destruct (json r); [done| |];
    intros (db & Hdb & Hin); exists db; auto.
Qed.

Lemma ackProg_mono W W' p :
  (∀ db, db ∈ W → db ∈ W') → ackProg W p → ackProg W' p.
Proof.
  intros Hsub Hp. revert W' Hsub.
  induction Hp as [W r Hr|W e|W|W k Hk IH|W payload k Hok _ Hrej IH]; intros W' Hsub.
  - constructor. by eapply announcedIn_mono.
  - constructor.
  - constructor.
  - constructor. intros r. by apply IH.
  - constructor; [done|]. intros e. by apply IH.
Qed.

Lemma ackTask_mono W W' jobs jobs' rid t :
  (∀ db, db ∈ W → db ∈ W') → (∀ job, job ∈ jobs' → job ∈ jobs) →
  ackTask W jobs rid t → ackTask W' jobs' rid t.
Proof.
  intros Hsub Hjobs. destruct t as [p|k|k|r| |]; simpl; try done.
  - by apply ackProg_mono.
  - intros Hk r. by eapply ackProg_mono.
  - intros [Hok Hrej]. split.
    + intros payload W'' Hjob. apply Hok. by apply Hjobs.
    + intros e. by eapply ackProg_mono.
  - by apply announcedIn_mono.
Qed.

Lemma ack_writeDBAtomic W payload r :
  (∀ W', payload ∈ W' → announcedIn W' r) →
  ackProg W (writeDBAtomic payload;; Ret r).
Proof.
  intros Hr. apply ack_Enqueue; simpl.
  - intros W' Hin. constructor. by apply Hr.
  - intros e. constructor.
Qed.

Lemma ack_handler cfg W o : ackProg W (handler cfg o).
Proof.
  destruct o as [user env|user env]; simpl.
  - unfold buyTicket. destruct (negb (truthy (user ≫= User.id))); [by constructor|].
    destruct (loadDB_bind (B:=Response)
      (λ db,
        let ticketsWithoutDraw := List.filter pending (tickets db) in
        if bool_decide (MAX_TICKETS_PER_DRAW cfg ≤ Z.of_nat (length ticketsWithoutDraw)) then
          Ret (mkRes 429 (JError ("Maximum of " +:+ pretty (MAX_TICKETS_PER_DRAW cfg)
                                  +:+ " pending tickets reached. Try later.")))
        else
          let myPending :=
            List.filter (λ t, String.eqb (Ticket.userId t) (default "" (user ≫= User.id)))
                        ticketsWithoutDraw in
          if bool_decide (MAX_TICKETS_PER_USER cfg ≤ Z.of_nat (length myPending)) then
            Ret (mkRes 429 (JError ("You already have " +:+ pretty (MAX_TICKETS_PER_USER cfg)
                                    +:+ " pending tickets.")))
          else
            match generateTicketNumbers (rnd env) with
            | None => Spin
            | Some numbers =>
                let newTicket :=
                  Ticket.mk (uuid env) (default "" (user ≫= User.id)) numbers None (now env) in
                let db := mkDB (draws db) (tickets db ++ [newTicket]) in
                writeDBAtomic db;;
                Ret (mkRes 201 (JTicket "Ticket purchased successfully." newTicket))
            end)) as (k & Hk & Hkr).
    cbv zeta. cbv zeta in Hk. rewrite Hk.
    apply ack_ReadFile. intros r. rewrite Hkr. cbv beta zeta.
    repeat case_bool_decide; try by constructor.
    destruct (generateTicketNumbers (rnd env)); [|by constructor].
    apply ack_writeDBAtomic. intros W' Hin. eexists. split; [done|]. simpl.
    apply elem_of_app. right. by apply list_elem_of_singleton.
  - unfold draw. destruct (negb (isAdmin user)); [by constructor|].
    destruct (loadDB_bind (B:=Response)
      (λ db,
        let openDraw := List.find (unreferenced db) (draws db) in
        match openDraw with
        | Some _ =>
            Ret (mkRes 400 (JError "There is already an active draw awaiting tickets."))
        | None =>
            match generateTicketNumbers (rnd env) with
            | None => Spin
            | Some numbers =>
                let newDraw := Draw.mk (uuid env) numbers (now env) in
                let db := mkDB (draws db ++ [newDraw])
                               (assign (Draw.id newDraw) <$> tickets db) in
                writeDBAtomic db;;
                Ret (mkRes 201 (JDraw "New draw created." newDraw))
            end
        end)) as (k & Hk & Hkr).
    cbv zeta in Hk. rewrite Hk.
    apply ack_ReadFile. intros r. rewrite Hkr. cbv beta zeta.
    destruct (List.find _ _); [by constructor|].
    destruct (generateTicketNumbers (rnd env)); [|by constructor].
    apply ack_writeDBAtomic. intros W' Hin. eexists. split; [done|]. simpl.
    apply elem_of_app. right. by apply list_elem_of_singleton.
Qed.

Section Ack.
Variable cfg : Config.

(** A request that is not waiting for a write has no write queued. *)
Lemma ack_not_queued s rid o t payload :
  ackInv s → tasks s !! rid = Some (o, t) →
  (∀ k, t ≠ AwaitWrite k) → (rid, payload) ∉ chain s.
Proof.
  intros Hinv Hrid Ht Hin.
  destruct (ack_waiting _ Hinv _ _ Hin) as (o' & k & Hk).
  rewrite Hrid in Hk. injection Hk as _ ->. by eapply Ht.
Qed.

(** Replacing the state of request [rid], with the same queue and no fewer
    documents written. *)
Lemma ack_replace s rid o t t' dsk st b :
  ackInv s → tasks s !! rid = Some (o, t) →
  (∀ k, t ≠ AwaitWrite k) → (∀ k, t' ≠ AwaitWrite k) →
  (∀ db, db ∈ written (sdisk s) → db ∈ written dsk) →
  (ackTask (written (sdisk s)) (chain s) rid t → ackTask (written dsk) (chain s) rid t') →
  ackInv (mkSys dsk st (chain s) (<[rid := (o, t')]> (tasks s)) b).
Proof.
  intros Hinv Hrid Ht Ht' Hsub Hstep. constructor; simpl.
  - intros rid' payload Hin.
    destruct (ack_waiting _ Hinv _ _ Hin) as (o' & k & Hk).
    destruct (decide (rid = rid')) as [<-|Hne].
    + rewrite Hrid in Hk. injection Hk as _ ->. by destruct (Ht k).
    + rewrite list_lookup_insert_ne by done. eauto.
  - apply (ack_once _ Hinv).
  - intros rid' o' t0.
    destruct (decide (rid = rid')) as [<-|Hne].
    + rewrite list_lookup_insert_eq by by eapply lookup_lt_Some.
      intros [= <- <-]. apply Hstep. by eapply (ack_tasks _ Hinv).
    + rewrite list_lookup_insert_ne by done. intros Hrid'.
      eapply ackTask_mono; [done|done|]. by eapply (ack_tasks _ Hinv).
Qed.

Lemma step_ack l s s' : ackInv s → step cfg l s = Some s' → ackInv s'.
Proof.
  intros Hinv. unfold step. destruct (blocked s); [done|].
  destruct l as [o|rid|rid fault|fault].
  - intros [= <-]. constructor; simpl.
    + intros rid payload Hin.
      destruct (ack_waiting _ Hinv _ _ Hin) as (o' & k & Hk).
      exists o', k. by apply lookup_app_l_Some.
    + apply (ack_once _ Hinv).
    + intros rid o' t [Hrid|[_ Hrid]]%lookup_app_Some.
      * by eapply (ack_tasks _ Hinv).
      * apply list_lookup_singleton_Some in Hrid as [_ [= <- <-]]. apply ack_handler.
  - destruct (tasks s !! rid) as [[o [p| | | | |]]|] eqn:Hrid; try done.
    intros [= <-].
    destruct p as [r|e| |k|payload k]; unfold advance.
    + eapply ack_replace; try done. simpl. by inversion 1.
    + eapply ack_replace; try done.
    + eapply ack_replace; try done.
    + eapply ack_replace; try done. simpl. by inversion 1.
    + pose proof (ack_tasks _ Hinv _ _ _ Hrid) as Hp. simpl in Hp.
      inversion Hp as [| | | |W payload' k' Hok Hrej]; subst.
      assert (∀ pl, (rid, pl) ∉ chain s) as Hfree.
      { intros pl. by eapply ack_not_queued. }
      constructor; simpl.
      * intros rid' pl [Hin| [= -> ->]%list_elem_of_singleton]%elem_of_app.
        -- destruct (ack_waiting _ Hinv _ _ Hin) as (o' & k0 & Hk0).
           destruct (decide (rid = rid')) as [<-|Hne]; [by destruct (Hfree pl)|].
           rewrite list_lookup_insert_ne by done. eauto.
        -- exists o, k. apply list_lookup_insert_eq. by eapply lookup_lt_Some.
      * rewrite fmap_app. simpl. apply NoDup_app. split_and!.
        -- apply (ack_once _ Hinv).
        -- intros x Hx ->%list_elem_of_singleton.
           apply list_elem_of_fmap in Hx as ([rid' pl] & -> & Hin). by destruct (Hfree pl).
        -- apply NoDup_singleton.
      * intros rid' o' t0.
        destruct (decide (rid = rid')) as [<-|Hne].
        -- rewrite list_lookup_insert_eq by by eapply lookup_lt_Some.
           intros [= <- <-]. simpl. split; [|done].
           intros pl W' [Hin| [= ->]%list_elem_of_singleton]%elem_of_app;
             [by destruct (Hfree pl)|]. apply Hok.
        -- rewrite list_lookup_insert_ne by done. intros Hrid'.
           pose proof (ack_tasks _ Hinv _ _ _ Hrid') as Ht0.
           destruct t0 as [p0|k0|k0|r0| |]; simpl in *; try done.
           destruct Ht0 as [Hok0 Hrej0]. split; [|done].
           intros pl W' [Hin| [= -> ->]%list_elem_of_singleton]%elem_of_app; [|done].
           by apply Hok0.
  - destruct (tasks s !! rid) as [[o [p|k| | | |]]|] eqn:Hrid; try done.
    intros [= <-]. eapply ack_replace; try done. simpl. intros Hk. apply Hk.
  - destruct (chain s) as [|[rid payload] rest] eqn:Hc; [done|].
    destruct (tasks s !! rid) as [[o [p|k|k| | |]]|] eqn:Hrid; try done.
    destruct (then_ (settledTail s) (writeJSON fault payload) (sdisk s))
      as [dsk st] eqn:Et.
    intros [= <-].
    pose proof (ack_once _ Hinv) as Hnd. rewrite Hc in Hnd. simpl in Hnd.
    apply NoDup_cons in Hnd as [Hfresh Hnd].
    pose proof (ack_tasks _ Hinv _ _ _ Hrid) as [Hok Hrej]. 
    assert (∀ db, db ∈ written (sdisk s) → db ∈ written dsk) as Hsub.
    { unfold then_, writeJSON in Et.
      destruct (settledTail s), fault; simplify_eq; try done.
      simpl. intros db Hdb. apply elem_of_app. by left. }
    assert (ackProg (written dsk) (k st)) as Hready.
    { unfold then_, writeJSON in Et.
      destruct (settledTail s), fault; simplify_eq; try apply Hrej.
      apply (Hok payload); [rewrite Hc; by left|].
      simpl. apply elem_of_app. right. by apply list_elem_of_singleton. }
    constructor; simpl.
    + intros rid' pl Hin.
      destruct (ack_waiting _ Hinv rid' pl) as (o' & k0 & Hk0); [rewrite Hc; by right|].
      destruct (decide (rid = rid')) as [<-|Hne].
      * exfalso. apply Hfresh. apply list_elem_of_fmap. by exists (rid, pl).
      * rewrite list_lookup_insert_ne by done. eauto.
    + done.
    + intros rid' o' t0.
      destruct (decide (rid = rid')) as [<-|Hne].
      * rewrite list_lookup_insert_eq by by eapply lookup_lt_Some.
        by intros [= <- <-].
      * rewrite list_lookup_insert_ne by done. intros Hrid'.
        eapply ackTask_mono; [done| |by eapply (ack_tasks _ Hinv)].
        intros job Hjob. rewrite Hc. by right.
Qed.

Lemma run_ack trace : ∀ s s', ackInv s → run cfg trace s = Some s' → ackInv s'.
Proof.
  induction trace as [|l trace IH]; intros s s' Hinv; simpl.
  - by intros [= <-].
  - destruct (step cfg l s) as [s1|] eqn:Es; [|done].
    apply IH. by eapply step_ack.
Qed.

Lemma boot_ack d : ackInv (boot d).
Proof.
  constructor; simpl.
  - intros rid payload Hin. by apply elem_of_nil in Hin.
  - constructor.
  - intros rid o t Hrid. by rewrite lookup_nil in Hrid.
Qed.
End Ack.

(** X5.  On every run of the event loop from a start with no request in
    flight: a request answered 201 carries a ticket (a draw) that is in a
    document [fs.writeFile] has already stored.  No purchase or draw is
    acknowledged before its write went through. *)
Theorem answered_after_stored cfg d trace s rid o r :
  run cfg trace (boot d) = Some s →
  tasks s !! rid = Some (o, Done r) →
  announcedIn (written (sdisk s)) r.
Proof.
  intros Hrun Hrid.
  apply (ack_tasks _ (run_ack cfg _ _ _ (boot_ack d) Hrun) _ _ _ Hrid).
Qed.

(* ------------------------------------------------------------------ *)
(** ** Listing one's tickets *)

Lemma slice_window {A} (start n : Z) (l : list A) :
  0 ≤ start → 0 ≤ n →
  slice start (start + n) l = take (Z.to_nat n) (drop (Z.to_nat start) l).
Proof.
  intros Hs Hn. unfold slice.
  rewrite (proj2 (Z.ltb_ge start 0)) by lia.
  rewrite (proj2 (Z.ltb_ge (start + n) 0)) by lia.
  destruct (decide (start ≤ Z.of_nat (length l))) as [Hle|Hgt].
  - rewrite (Z.min_l start) by lia.
    destruct (decide (start + n ≤ Z.of_nat (length l))) as [Hle'|Hgt'].
    + rewrite Z.min_l by lia. f_equal. lia.
    + rewrite Z.min_r by lia.
      rewrite !take_ge; [done|rewrite length_drop; lia..].
  - rewrite !Z.min_r by lia. rewrite Z.sub_diag. simpl.
    rewrite (drop_ge l (Z.to_nat start)) by lia. by rewrite take_nil.
Qed.

Lemma exec_myTickets user uid page limit w :
  user ≫= User.id = Some uid → uid ≠ "" →
  exec (myTickets user page limit) w =
    (Returned
       (mkReply 200
          (VTickets (Z.max 1 (parsedOr page 1)) (Z.max 1 (parsedOr limit 20))
             (length (ticketsOfUser uid (loaded w)))
             (take (Z.to_nat (Z.max 1 (parsedOr limit 20)))
                (drop (Z.to_nat ((Z.max 1 (parsedOr page 1) - 1) * Z.max 1 (parsedOr limit 20)))
                   (ticketsOfUser uid (loaded w)))))), w).
Proof.
  intros Hid Hne. unfold myTickets. rewrite Hid.
  apply String.eqb_neq in Hne. cbn [truthy]. rewrite Hne. cbn [negb].
  rewrite exec_loadDB_bind. cbv zeta. cbn [exec default].
  rewrite slice_window; [done|apply Z.mul_nonneg_nonneg; lia|lia].
Qed.

Lemma ticketsOfUser_owned uid db t :
  t ∈ ticketsOfUser uid db ↔ t ∈ tickets db ∧ Ticket.userId t = uid.
Proof.
  unfold ticketsOfUser. rewrite !list_elem_of_In, filter_In, String.eqb_eq. done.
Qed.

(** X11.  For an authenticated caller [myTickets] answers 200, leaves the
    world as it is, reports as [totalTickets] the number of the caller's
    tickets in the loaded ledger, with [page] and [limit] at least 1, and
    lists the window [(page - 1) * limit, page * limit) of those tickets in
    ledger order: at most [limit] tickets, each one the caller's. *)
Theorem myTickets_lists_own_tickets user uid page limit w :
  user ≫= User.id = Some uid → uid ≠ "" →
  ∃ p l paged,
    exec (myTickets user page limit) w =
      (Returned (mkReply 200
         (VTickets p l (length (ticketsOfUser uid (loaded w))) paged)), w)
    ∧ 1 ≤ p ∧ 1 ≤ l
    ∧ paged = take (Z.to_nat l) (drop (Z.to_nat ((p - 1) * l)) (ticketsOfUser uid (loaded w)))
    ∧ (length paged ≤ Z.to_nat l)%nat
    ∧ ∀ t, t ∈ paged → t ∈ tickets (loaded w) ∧ Ticket.userId t = uid.
Proof.
  intros Hid Hne. eexists _, _, _. split; [by apply exec_myTickets|].
  split_and!; [lia|lia|done| |].
  - rewrite length_take. lia.
  - intros t Ht. apply ticketsOfUser_owned.
    by apply subseteq_take, subseteq_drop in Ht.
Qed.

Lemma myTickets_page user uid (perPage n : nat) w :
  user ≫= User.id = Some uid → uid ≠ "" → (1 ≤ perPage)%nat →
  ticketsOf (exec (myTickets user (Some (Z.of_nat (S n))) (Some (Z.of_nat perPage))) w).1
  = take perPage (drop (n * perPage) (ticketsOfUser uid (loaded w))).
Proof.
  intros Hid Hne Hper. rewrite (exec_myTickets _ _ _ _ _ Hid Hne). cbn [fst ticketsOf].
  assert (parsedOr (Some (Z.of_nat perPage)) 20 = Z.of_nat perPage) as ->
    by (destruct perPage; [lia|done]).
  assert (parsedOr (Some (Z.of_nat (S n))) 1 = Z.of_nat (S n)) as -> by done.
  rewrite !Z.max_r by lia.
  replace (Z.to_nat ((Z.of_nat (S n) - 1) * Z.of_nat perPage)) with (n * perPage)%nat by lia.
  by rewrite Nat2Z.id.
Qed.

Lemma join_fmap_singleton {A B} (f : A → list B) x : mjoin (f <$> [x]) = f x.
Proof. simpl. apply app_nil_r. Qed.

(** X12.  With a page size of at least 1, pages 1 to [n] of [myTickets], one
    after the other, are the first [n * perPage] tickets of the caller: no
    ticket is skipped and none is listed twice. *)
Theorem myTickets_pages_cover user uid (perPage n : nat) w :
  user ≫= User.id = Some uid → uid ≠ "" → (1 ≤ perPage)%nat →
  mjoin ((λ p, ticketsOf
                 (exec (myTickets user (Some (Z.of_nat p)) (Some (Z.of_nat perPage))) w).1)
         <$> seq 1 n)
  = take (n * perPage) (ticketsOfUser uid (loaded w)).
Proof.
  intros Hid Hne Hper.
  induction n as [|n IH]; [done|].
  rewrite seq_S, fmap_app, join_app, IH, join_fmap_singleton.
  change (1 + n)%nat with (S n).
  rewrite (myTickets_page _ _ _ _ _ Hid Hne Hper), take_take_drop. f_equal. lia.
Qed.

(* ------------------------------------------------------------------ *)
(** ** Results of a draw *)

Lemma exec_results user uid drawId w :
  user ≫= User.id = Some uid → uid ≠ "" →
  exec (results user drawId) w =
    (Returned
       match List.find (λ d, String.eqb (Draw.id d) drawId) (draws (loaded w)) with
       | None => mkReply 404 (VError "Draw not found.")
       | Some draw =>
           mkReply 200
             (VResults draw
                (detail draw <$>
                   List.filter
                     (λ t, String.eqb (Ticket.userId t) uid
                           && bool_decide (Ticket.drawId t = Some drawId))
                     (tickets (loaded w))))
       end, w).
Proof.
  intros Hid Hne. unfold results. rewrite Hid.
  apply String.eqb_neq in Hne. cbn [truthy]. rewrite Hne. cbn [negb].
  rewrite exec_loadDB_bind. cbv zeta. cbn [default].
  by destruct (List.find _ _).
Qed.

(** X13.  [results] for an authenticated caller: 404 when no draw of the
    loaded ledger has the id asked for; otherwise 200 with a draw of
    that id and one row for each ticket of the caller assigned to it, in
    ledger order, and for no other ticket.  The world is left as it is. *)
Theorem results_only_own_tickets user uid drawId w :
  user ≫= User.id = Some uid → uid ≠ "" →
  ((∀ d, d ∈ draws (loaded w) → Draw.id d ≠ drawId) →
   exec (results user drawId) w = (Returned (mkReply 404 (VError "Draw not found.")), w))
  ∧ ((∃ d, d ∈ draws (loaded w) ∧ Draw.id d = drawId) →
     ∃ draw rows,
       exec (results user drawId) w = (Returned (mkReply 200 (VResults draw rows)), w)
       ∧ draw ∈ draws (loaded w) ∧ Draw.id draw = drawId
       ∧ (∀ row, row ∈ rows ↔
            ∃ t, t ∈ tickets (loaded w) ∧ Ticket.userId t = uid
                 ∧ Ticket.drawId t = Some drawId ∧ row = detail draw t)
       ∧ Row.ticketId <$> rows =
           Ticket.id <$>
             List.filter
               (λ t, String.eqb (Ticket.userId t) uid
                     && bool_decide (Ticket.drawId t = Some drawId))
               (tickets (loaded w))).
Proof.
  intros Hid Hne. rewrite (exec_results _ _ _ _ Hid Hne). split.
  - intros Hnone.
    destruct (List.find _ _) as [d|] eqn:E; [|done].
    apply find_some in E as [Hd Heq]. apply list_elem_of_In in Hd.
    apply String.eqb_eq in Heq. by destruct (Hnone d Hd).
  - intros (d & Hd & Heq).
    destruct (List.find _ _) as [draw|] eqn:E.
    + apply find_some in E as [Hdraw Hdid].
      apply list_elem_of_In in Hdraw. apply String.eqb_eq in Hdid.
      eexists _, _. split; [done|]. split_and!; [done..| |].
      * intros row. rewrite list_elem_of_fmap. split.
        -- intros (t & -> & Ht). apply list_elem_of_In, filter_In in Ht as [Ht Hc].
           apply andb_true_iff in Hc as [Hu Hdr].
           apply String.eqb_eq in Hu. apply bool_decide_eq_true in Hdr.
           exists t. by rewrite <- list_elem_of_In in Ht.
        -- intros (t & Ht & Hu & Hdr & ->). exists t. split; [done|].
           apply list_elem_of_In, filter_In. split; [by apply list_elem_of_In|].
           apply andb_true_iff. split; [by apply String.eqb_eq|by apply bool_decide_eq_true].
      * rewrite <- list_fmap_compose. done.
    + apply list_elem_of_In in Hd.
      pose proof (find_none _ _ E d Hd) as Hn. simpl in Hn.
      apply String.eqb_neq in Hn. done.
Qed.

Lemma prize_jackpot m : prizeFromMatches m = "Jackpot!" ↔ m = 6%nat.
Proof.
  split; [|by intros ->].
  do 7 (destruct m as [|m]; try done).
Qed.

Lemma countMatches_le t d : (countMatches t d ≤ length t)%nat.
Proof. rewrite countMatches_filter. apply length_filter. Qed.

(** X14.  For a ticket and a draw with valid number sets, the row [results]
    builds has at most 6 matches, and its prize is "Jackpot!" exactly when
    the ticket's numbers are the draw's numbers. *)
Theorem jackpot_iff_same_numbers draw t :
  validNumbers (Ticket.numbers t) → validNumbers (Draw.numbers draw) →
  (Row.matches (detail draw t) ≤ 6)%nat
  ∧ (Row.prize (detail draw t) = "Jackpot!" ↔ Ticket.numbers t = Draw.numbers draw).
Proof.
  intros (Hlt & Hndt & _ & Hst) (Hld & Hndd & _ & Hsd). simpl. split.
  - rewrite <- Hlt. apply countMatches_le.
  - rewrite prize_jackpot, countMatches_intersection by done. split.
    + intros Hsix.
      set (T := list_to_set (Ticket.numbers t) : gset Z) in *.
      set (D := list_to_set (Draw.numbers draw) : gset Z) in *.
      assert (size T = 6%nat) as HT by (unfold T; by rewrite size_list_to_set).
      assert (size D = 6%nat) as HD by (unfold D; by rewrite size_list_to_set).
      assert (T ∩ D = T) as HTD.
      { apply set_subseteq_size_eq; [apply intersection_subseteq_l|lia]. }
      assert (T = D) as Heq.
      { apply set_subseteq_size_eq; [|lia].
        rewrite <- HTD. apply intersection_subseteq_r. }
      apply (Sorted_unique Z.le); [done..|].
      apply NoDup_Permutation; [done..|]. intros x.
      rewrite <- !(elem_of_list_to_set (C:=gset Z)). fold T D. by rewrite Heq.
    + intros ->. rewrite (idemp_L (∩)). by rewrite size_list_to_set.
Qed.

(* ------------------------------------------------------------------ *)
(** ** Listing the draws *)

Section SortByKey.
Context {A : Type} (key : A → Z).

(** The comparator [(a, b) => key(b) - key(a)]. *)
Let byKey (a b : A) : option Z := Some (key b - key a).

Lemma insertBy_perm x l : insertBy byKey x l ≡ₚ x :: l.
Proof.
  induction l as [|y l IH]; simpl; [done|].
  destruct (0 <? key y - key x); [|done].
  rewrite IH. apply perm_swap.
Qed.

Lemma sortBy_perm l : sortBy byKey l ≡ₚ l.
Proof.
  induction l as [|x l IH]; simpl; [done|]. by rewrite insertBy_perm, IH.
Qed.

Lemma insertBy_HdRel a x l :
  key x ≤ key a → HdRel (λ a b, key b ≤ key a) a l →
  HdRel (λ a b, key b ≤ key a) a (insertBy byKey x l).
Proof.
  intros Hx Hl. destruct l as [|y l]; simpl; [by constructor|].
  destruct (0 <? key y - key x); constructor; [|done]. by inversion Hl.
Qed.

Lemma insertBy_sorted x l :
  Sorted (λ a b, key b ≤ key a) l → Sorted (λ a b, key b ≤ key a) (insertBy byKey x l).
Proof.
  induction 1 as [|y l Hl IH Hhd]; simpl; [by repeat constructor|].
  destruct (0 <? key y - key x) eqn:E.
  - apply Z.ltb_lt in E. constructor; [done|]. apply insertBy_HdRel; [lia|done].
  - apply Z.ltb_ge in E. constructor; [by constructor|]. constructor. lia.
Qed.

Lemma sortBy_sorted l : Sorted (λ a b, key b ≤ key a) (sortBy byKey l).
Proof.
  induction l as [|x l IH]; simpl; [constructor|]. by apply insertBy_sorted.
Qed.

Lemma insertBy_stable k x l :
  List.filter (λ a, key a =? k) (insertBy byKey x l)
  = List.filter (λ a, key a =? k) (x :: l).
Proof.
  induction l as [|y l IH]; [done|]. simpl.
  destruct (0 <? key y - key x) eqn:E; simpl; [|done].
  apply Z.ltb_lt in E. rewrite IH. simpl.
  destruct (key y =? k) eqn:Ey; destruct (key x =? k) eqn:Ex; try done.
  apply Z.eqb_eq in Ey, Ex. lia.
Qed.

Lemma sortBy_stable k l :
  List.filter (λ a, key a =? k) (sortBy byKey l) = List.filter (λ a, key a =? k) l.
Proof.
  induction l as [|x l IH]; [done|]. simpl.
  rewrite insertBy_stable. simpl. by rewrite IH.
Qed.

Lemma insertBy_ext (cmp : A → A → option Z) x l :
  (∀ y, y ∈ l → cmp x y = byKey x y) → insertBy cmp x l = insertBy byKey x l.
Proof.
  induction l as [|y l IH]; intros Hc; simpl; [done|].
  rewrite (Hc y) by by left. simpl.
  destruct (0 <? key y - key x); [|done]. f_equal. apply IH.
  intros z Hz. apply Hc. by right.
Qed.

Lemma sortBy_ext (cmp : A → A → option Z) l :
  (∀ x y, x ∈ l → y ∈ l → cmp x y = byKey x y) → sortBy cmp l = sortBy byKey l.
Proof.
  induction l as [|x l IH]; intros Hc; simpl; [done|].
  rewrite IH by (intros y z Hy Hz; apply Hc; by right).
  apply insertBy_ext. intros y Hy. apply Hc; [by left|].
  right. by rewrite <- (sortBy_perm l).
Qed.
End SortByKey.

Lemma exec_listDraws getTime w :
  exec (listDraws getTime) w =
    (Returned (mkReply 200 (VDraws (sortBy (newestFirst getTime) (draws (loaded w))))), w).
Proof. unfold listDraws. by rewrite exec_loadDB_bind. Qed.

(** X15.  When every draw of the loaded ledger has a valid date, [listDraws]
    answers 200 with the same draws rearranged, latest date first, draws of
    the same date keeping their ledger order; the world is left as it is. *)
Theorem listDraws_newest_first getTime w :
  (∀ d, d ∈ draws (loaded w) → is_Some (getTime (Draw.date d))) →
  ∃ sorted,
    exec (listDraws getTime) w = (Returned (mkReply 200 (VDraws sorted)), w)
    ∧ sorted ≡ₚ draws (loaded w)
    ∧ Sorted (λ a b, timeOf getTime b ≤ timeOf getTime a) sorted
    ∧ ∀ k, List.filter (λ d, timeOf getTime d =? k) sorted
           = List.filter (λ d, timeOf getTime d =? k) (draws (loaded w)).
Proof.
  intros Hvalid. eexists. split; [apply exec_listDraws|].
  rewrite (sortBy_ext (timeOf getTime)).
  - split_and!; [apply sortBy_perm|apply sortBy_sorted|intros k; apply sortBy_stable].
  - intros a b Ha Hb. unfold newestFirst, timeOf.
    destruct (Hvalid a Ha) as [ta ->]. by destruct (Hvalid b Hb) as [tb ->].
Qed.

(* ------------------------------------------------------------------ *)
(** ** Requests served in turn *)

Lemma loaded_stored db wr rf wf st :
  rf = None → loaded (mkWorld (mkDisk (Some (JsonDoc db)) wr) st rf wf) = db.
Proof. by intros ->. Qed.

Lemma bought_Some req t :
  bought req = Some t →
  ∃ uid numbers,
    req.1 ≫= User.id = Some uid ∧ uid ≠ ""
    ∧ generateTicketNumbers (rnd req.2) = Some numbers
    ∧ t = Ticket.mk (uuid req.2) uid numbers None (now req.2).
Proof.
  unfold bought. destruct (req.1 ≫= User.id) as [uid|]; [|done]. simpl.
  destruct (generateTicketNumbers (rnd req.2)) as [numbers|]; [|done]. simpl.
  destruct (String.eqb uid "") eqn:E; [done|]. apply String.eqb_neq in E.
  intros [= <-]. eauto 10.
Qed.

Lemma pendingCount_snoc db t :
  Ticket.drawId t = None →
  pendingCount (mkDB (draws db) (tickets db ++ [t])) = S (pendingCount db).
Proof.
  intros Ht. unfold pendingCount, pending. simpl.
  rewrite List.filter_app, length_app. simpl. rewrite Ht. simpl. lia.
Qed.

Lemma pendingCountOf_snoc uid db t :
  Ticket.drawId t = None →
  pendingCountOf uid (mkDB (draws db) (tickets db ++ [t]))
  = (pendingCountOf uid db + if String.eqb (Ticket.userId t) uid then 1 else 0)%nat.
Proof.
  intros Ht. unfold pendingCountOf, pending. simpl.
  rewrite List.filter_app, length_app. simpl. rewrite Ht. simpl.
  by destruct (String.eqb _ _).
Qed.

(** X7.  Purchases served one after the other, with a readable file and
    writes that succeed, are all kept: as long as both limits leave room for
    every one of them, the ledger afterwards is the ledger before with the
    new tickets appended in the order of the requests. *)
Theorem purchases_in_turn_all_kept cfg reqs new w :
  healthy w →
  mapM bought reqs = Some new →
  Z.of_nat (pendingCount (loaded w) + length new) ≤ MAX_TICKETS_PER_DRAW cfg →
  (∀ uid, Z.of_nat (pendingCountOf uid (loaded w)
                    + length (List.filter (λ t, String.eqb (Ticket.userId t) uid) new))
          ≤ MAX_TICKETS_PER_USER cfg) →
  healthy (buyInTurn cfg reqs w)
  ∧ loaded (buyInTurn cfg reqs w)
    = mkDB (draws (loaded w)) (tickets (loaded w) ++ new).
Proof.
  revert new w. induction reqs as [|req reqs IH]; intros new w Hw Hnew Hg Hu.
  - apply mapM_Some in Hnew. apply Forall2_nil_inv_l in Hnew as ->.
    simpl. split; [done|]. rewrite app_nil_r. by destruct (loaded w).
  - apply mapM_Some in Hnew. apply Forall2_cons_inv_l in Hnew as (t & new' & Ht & Hnew' & ->).
    apply mapM_Some in Hnew'.
    destruct (bought_Some _ _ Ht) as (uid & numbers & Hid & Hne & Hnum & ->).
    destruct Hw as (Hpw & Hrf & Hwf).
    set (t := Ticket.mk (uuid req.2) uid numbers None (now req.2)) in *.
    assert (exec (buyTicket cfg req.1 req.2) w =
              (Returned (res_ticket t),
               mkWorld (mkDisk (Some (JsonDoc (mkDB (draws (loaded w)) (tickets (loaded w) ++ [t]))))
                               (written (disk w) ++ [mkDB (draws (loaded w)) (tickets (loaded w) ++ [t])]))
                       Fulfilled (readFault w) (writeFault w))) as Hex.
    { rewrite (exec_buyTicket _ _ _ _ _ Hid Hne). cbv zeta.
      rewrite bool_decide_eq_false_2 by (simpl in Hg; lia).
      rewrite bool_decide_eq_false_2.
      2:{ specialize (Hu uid). simpl in Hu. rewrite String.eqb_refl in Hu. simpl in Hu. lia. }
      rewrite Hnum, exec_writeDBAtomic_ret, Hpw, Hwf. done. }
    simpl. rewrite Hex. simpl.
    set (w1 := mkWorld _ _ _ _).
    assert (loaded w1 = mkDB (draws (loaded w)) (tickets (loaded w) ++ [t])) as Hl1
      by by apply loaded_stored.
    destruct (IH new' w1) as [Hh Hl].
    + by split_and!.
    + done.
    + rewrite Hl1, pendingCount_snoc by done. simpl in Hg. lia.
    + intros uid'. rewrite Hl1, pendingCountOf_snoc by done.
      specialize (Hu uid'). simpl in Hu. subst t. simpl.
      destruct (String.eqb uid uid'); simpl in *; lia.
    + split; [done|]. rewrite Hl, Hl1. simpl. by rewrite <- app_assoc.
Qed.

Lemma exec_draw_201 user env w r w1 :
  exec (draw user env) w = (Returned r, w1) → status r = 201%nat →
  ∃ numbers,
    generateTicketNumbers (rnd env) = Some numbers
    ∧ List.find (unreferenced (loaded w)) (draws (loaded w)) = None
    ∧ pendingWrite w = Fulfilled ∧ writeFault w = None
    ∧ r = res_draw (Draw.mk (uuid env) numbers (now env))
    ∧ w1 = mkWorld
             (mkDisk
                (Some (JsonDoc (mkDB (draws (loaded w) ++ [Draw.mk (uuid env) numbers (now env)])
                                     (assign (uuid env) <$> tickets (loaded w)))))
                (written (disk w)
                 ++ [mkDB (draws (loaded w) ++ [Draw.mk (uuid env) numbers (now env)])
                          (assign (uuid env) <$> tickets (loaded w))]))
             Fulfilled (readFault w) (writeFault w).
Proof.
  rewrite exec_draw. intros Hex Hst.
  destruct (isAdmin user); [|by simplify_eq]. cbv zeta in Hex.
  destruct (List.find _ _); [by simplify_eq|].
  destruct (generateTicketNumbers (rnd env)) as [numbers|]; [|done].
  rewrite exec_writeDBAtomic_ret in Hex.
  destruct (pendingWrite w), (writeFault w); simplify_eq. eauto 10.
Qed.

(** X8.  After a draw answered 201 no ticket of the ledger is left pending,
    so with limits of at least 1 the next purchase of an authenticated
    caller, served alone, is answered 201 and the document it stores has
    exactly one pending ticket. *)
Theorem purchase_accepted_after_draw cfg admin env w r w1 user uid env' numbers' :
  exec (draw admin env) w = (Returned r, w1) → status r = 201%nat →
  1 ≤ MAX_TICKETS_PER_DRAW cfg → 1 ≤ MAX_TICKETS_PER_USER cfg →
  user ≫= User.id = Some uid → uid ≠ "" →
  generateTicketNumbers (rnd env') = Some numbers' →
  pendingCount (loaded w1) = 0%nat
  ∧ ∃ w2 db2,
      exec (buyTicket cfg user env') w1
      = (Returned (res_ticket (Ticket.mk (uuid env') uid numbers' None (now env'))), w2)
      ∧ file (disk w2) = Some (JsonDoc db2) ∧ pendingCount db2 = 1%nat.
Proof.
  intros Hex Hst Hg Hu Hid Hne Hnum.
  destruct (exec_draw_201 _ _ _ _ _ Hex Hst) as (numbers & _ & _ & _ & Hwf & _ & ->).
  set (db' := mkDB _ _).
  set (w1 := mkWorld _ _ _ _).
  assert (pendingCount (loaded w1) = 0%nat) as Hzero.
  { unfold loaded, fs_readFile, w1. simpl. destruct (readFault w); [done|].
    apply pendingCount_assign. }
  assert (∀ u, pendingCountOf u (loaded w1) = 0%nat) as Hzero'.
  { intros u. pose proof (pendingCountOf_le u (loaded w1)). lia. }
  split; [done|].
  rewrite (exec_buyTicket _ _ _ _ _ Hid Hne). cbv zeta.
  rewrite Hzero, Hzero'. rewrite !bool_decide_eq_false_2 by lia.
  rewrite Hnum, exec_writeDBAtomic_ret. simpl. rewrite Hwf.
  eexists _, _. split_and!; [done..|].
  rewrite pendingCount_snoc by done. by rewrite Hzero.
Qed.

Lemma exec_buyTicket_201 cfg user env w r w1 :
  exec (buyTicket cfg user env) w = (Returned r, w1) → status r = 201%nat →
  ∃ uid numbers,
    user ≫= User.id = Some uid ∧ uid ≠ ""
    ∧ generateTicketNumbers (rnd env) = Some numbers
    ∧ r = res_ticket (Ticket.mk (uuid env) uid numbers None (now env))
    ∧ w1 = mkWorld
             (mkDisk
                (Some (JsonDoc (mkDB (draws (loaded w))
                          (tickets (loaded w)
                           ++ [Ticket.mk (uuid env) uid numbers None (now env)]))))
                (written (disk w)
                 ++ [mkDB (draws (loaded w))
                       (tickets (loaded w)
                        ++ [Ticket.mk (uuid env) uid numbers None (now env)])]))
             Fulfilled (readFault w) (writeFault w).
Proof.
  intros Hex Hst.
  destruct (truthy (user ≫= User.id)) eqn:Ht.
  - apply truthy_spec in Ht as (uid & Hid & Hne).
    rewrite (exec_buyTicket _ _ _ _ _ Hid Hne) in Hex. cbv zeta in Hex.
    repeat case_bool_decide; simplify_eq; try done.
    destruct (generateTicketNumbers (rnd env)) as [numbers|]; [|done].
    rewrite exec_writeDBAtomic_ret in Hex.
    destruct (pendingWrite w), (writeFault w); simplify_eq. eauto 10.
  - unfold buyTicket in Hex. rewrite Ht in Hex. by simplify_eq/=.
Qed.

Lemma ticketsOfUser_snoc uid db t :
  ticketsOfUser uid (mkDB (draws db) (tickets db ++ [t]))
  = ticketsOfUser uid db ++ (if String.eqb (Ticket.userId t) uid then [t] else []).
Proof. unfold ticketsOfUser. simpl. by rewrite List.filter_app. Qed.

(** X9.  After a purchase answered 201 (the file being readable), the
    buyer's listing is the listing before with the new ticket at its end and
    [totalTickets] one higher; the listing of every other user is
    unchanged. *)
Theorem purchase_shows_in_listing cfg user env w r w1 :
  exec (buyTicket cfg user env) w = (Returned r, w1) → status r = 201%nat →
  readFault w = None →
  ∃ uid t,
    user ≫= User.id = Some uid ∧ r = res_ticket t
    ∧ (∀ limit, Z.of_nat (length (ticketsOfUser uid (loaded w))) < limit →
         exec (myTickets user None (Some limit)) w1
         = (Returned (mkReply 200
              (VTickets 1 limit (S (length (ticketsOfUser uid (loaded w))))
                 (ticketsOfUser uid (loaded w) ++ [t]))), w1))
    ∧ ∀ other uid' page limit,
        other ≫= User.id = Some uid' → uid' ≠ uid →
        (exec (myTickets other page limit) w1).1 = (exec (myTickets other page limit) w).1.
Proof.
  intros Hex Hst Hrf.
  destruct (exec_buyTicket_201 _ _ _ _ _ _ Hex Hst) as (uid & numbers & Hid & Hne & _ & -> & ->).
  set (t := Ticket.mk (uuid env) uid numbers None (now env)).
  set (w1 := mkWorld _ _ _ _).
  assert (loaded w1 = mkDB (draws (loaded w)) (tickets (loaded w) ++ [t])) as Hl1
    by by apply loaded_stored.
  exists uid, t. split_and!; [done..| |].
  - intros limit Hlimit. rewrite (exec_myTickets _ _ _ _ _ Hid Hne).
    assert (parsedOr (Some limit) 20 = limit) as -> by (destruct limit; [lia|done..]).
    change (parsedOr None 1) with 1. rewrite (Z.max_r 1 limit) by lia.
    rewrite Hl1, ticketsOfUser_snoc. cbn [Ticket.userId]. rewrite String.eqb_refl.
    change (Z.to_nat ((Z.max 1 1 - 1) * limit)) with 0%nat. rewrite drop_0.
    rewrite take_ge by (rewrite length_app; simpl; lia).
    rewrite length_app. simpl. repeat f_equal. lia.
  - intros other uid' page limit Hid' Hne'.
    destruct (decide (uid' = "")) as [->|Hne''].
    + unfold myTickets. rewrite Hid'. done.
    + rewrite !(exec_myTickets _ _ _ _ _ Hid' Hne''). cbn [fst].
      rewrite Hl1, ticketsOfUser_snoc. unfold t. cbn [Ticket.userId].
      assert (String.eqb uid uid' = false) as -> by (apply String.eqb_neq; congruence).
      by rewrite app_nil_r.
Qed.

Lemma assigned_to_fresh newId uid t :
  Ticket.drawId t ≠ Some newId →
  String.eqb (Ticket.userId (assign newId t)) uid
  && bool_decide (Ticket.drawId (assign newId t) = Some newId)
  = pending t && String.eqb (Ticket.userId t) uid.
Proof.
  intros Ht. unfold assign, pending.
  destruct (Ticket.drawId t) as [d|] eqn:E; simpl.
  - rewrite E, bool_decide_eq_false_2 by done. apply andb_false_r.
  - rewrite bool_decide_eq_true_2 by done. apply andb_true_r.
Qed.

Lemma filter_assign_fresh newId uid (ts : list Ticket.t) :
  (∀ t, t ∈ ts → Ticket.drawId t ≠ Some newId) →
  List.filter (λ t, String.eqb (Ticket.userId t) uid
                    && bool_decide (Ticket.drawId t = Some newId))
              (assign newId <$> ts)
  = assign newId <$> List.filter (λ t, pending t && String.eqb (Ticket.userId t) uid) ts.
Proof.
  induction ts as [|t ts IH]; intros Hfresh; [done|].
  rewrite fmap_cons. cbn [List.filter].
  rewrite assigned_to_fresh by (apply Hfresh; by left).
  rewrite IH by (intros t' Ht'; apply Hfresh; by right).
  by destruct (pending t && String.eqb (Ticket.userId t) uid).
Qed.

Lemma detail_assign newId draw t : detail draw (assign newId t) = detail draw t.
Proof. unfold assign. by destruct (pending t). Qed.

Lemma find_fresh_last (ds : list Draw.t) d id :
  Draw.id d = id → (∀ d', d' ∈ ds → Draw.id d' ≠ id) →
  List.find (λ x, String.eqb (Draw.id x) id) (ds ++ [d]) = Some d.
Proof.
  intros <-. induction ds as [|d0 ds IH]; intros Hfresh; simpl.
  - by rewrite String.eqb_refl.
  - assert (String.eqb (Draw.id d0) (Draw.id d) = false) as ->.
    { apply String.eqb_neq. apply Hfresh. by left. }
    apply IH. intros d' Hd'. apply Hfresh. by right.
Qed.

(** X10.  After a draw answered 201 under a fresh id (the file being
    readable), [results] for that id shows a user exactly the tickets that
    user had pending before the draw, in ledger order, each matched against
    the new draw. *)
Theorem results_after_draw admin env w r w1 user uid :
  exec (draw admin env) w = (Returned r, w1) → status r = 201%nat →
  readFault w = None →
  (∀ d, d ∈ draws (loaded w) → Draw.id d ≠ uuid env) →
  (∀ t, t ∈ tickets (loaded w) → Ticket.drawId t ≠ Some (uuid env)) →
  user ≫= User.id = Some uid → uid ≠ "" →
  ∃ newDraw,
    r = res_draw newDraw ∧ Draw.id newDraw = uuid env
    ∧ exec (results user (uuid env)) w1
      = (Returned (mkReply 200
           (VResults newDraw
              (detail newDraw <$>
                 List.filter (λ t, pending t && String.eqb (Ticket.userId t) uid)
                             (tickets (loaded w))))), w1).
Proof.
  intros Hex Hst Hrf Hfd Hft Hid Hne.
  destruct (exec_draw_201 _ _ _ _ _ Hex Hst) as (numbers & _ & _ & _ & _ & -> & ->).
  set (newDraw := Draw.mk (uuid env) numbers (now env)).
  set (w1 := mkWorld _ _ _ _).
  assert (loaded w1 = mkDB (draws (loaded w) ++ [newDraw])
                           (assign (uuid env) <$> tickets (loaded w))) as Hl1
    by by apply loaded_stored.
  exists newDraw. split_and!; [done..|].
  rewrite (exec_results _ _ _ _ Hid Hne), Hl1. cbn [draws tickets].
  rewrite (find_fresh_last (draws (loaded w)) newDraw (uuid env)) by done.
  rewrite filter_assign_fresh by done.
  rewrite <- list_fmap_compose.
  do 4 f_equal. apply list_fmap_ext. intros i t _. simpl. apply detail_assign.
Qed.

(* ------------------------------------------------------------------ *)
(** ** The further properties at concrete inputs *)

Ltac numbers_valid :=
  split_and!;
  [ reflexivity
  | refine (bool_decide_unpack _ _); vm_compute; exact I
  | repeat (constructor; try lia)
  | repeat (constructor; try lia) ].

Ltac members H :=
  apply list_elem_of_In in H; simpl in H;
  repeat match type of H with _ ∨ _ => destruct H as [<-|H] end;
  try (by destruct H).

Lemma references_always_resolve_witness :
  ∃ s, run cfg0 overlapping (boot (mkDisk (Some (JsonDoc ledger1)) [])) = Some s
       ∧ Forall referencesResolve (written (sdisk s))
       ∧ ∀ db, file (sdisk s) = Some (JsonDoc db) → referencesResolve db.
Proof.
  destruct (run cfg0 overlapping (boot (mkDisk (Some (JsonDoc ledger1)) []))) as [s|] eqn:Hs;
    [|vm_compute in Hs; discriminate Hs].
  exists s. split; [reflexivity|].
  apply (references_always_resolve cfg0 (Some (JsonDoc ledger1)) overlapping s); [|exact Hs].
  intros db [= <-] t d Ht Hd. members Ht; [|discriminate Hd].
  injection Hd as <-. exists draw0. split; [by left|reflexivity].
Defined.


Lemma pending_always_within_limits_witness :
  ∃ s, run cfg0 overlapping (boot (mkDisk (Some (JsonDoc ledger1)) [])) = Some s
       ∧ Forall (withinLimits cfg0) (written (sdisk s))
       ∧ ∀ db, file (sdisk s) = Some (JsonDoc db) → withinLimits cfg0 db.
Proof.
  destruct (run cfg0 overlapping (boot (mkDisk (Some (JsonDoc ledger1)) []))) as [s|] eqn:Hs;
    [|vm_compute in Hs; discriminate Hs].
  exists s. split; [reflexivity|].
  apply (pending_always_within_limits cfg0 (Some (JsonDoc ledger1)) overlapping s); [|exact Hs].
  intros db [= <-]. split.
  - vm_compute. discriminate.
  - intros uid.
    assert (Z.max 0 (MAX_TICKETS_PER_USER cfg0) = 100) as -> by reflexivity.
    pose proof (pendingCountOf_le uid ledger1) as Hle.
    change (pendingCount ledger1) with 1%nat in Hle. lia.
Defined.

Lemma never_two_unfilled_draws_witness :
  ∃ s, run cfg0 overlapping (boot (mkDisk (Some (JsonDoc ledger2)) [])) = Some s
       ∧ Forall onlyLastUnfilled (written (sdisk s))
       ∧ ∀ db, file (sdisk s) = Some (JsonDoc db) → onlyLastUnfilled db.
Proof.
  destruct (run cfg0 overlapping (boot (mkDisk (Some (JsonDoc ledger2)) []))) as [s|] eqn:Hs;
    [|vm_compute in Hs; discriminate Hs].
  exists s. split; [reflexivity|].
  apply (never_two_unfilled_draws cfg0 (Some (JsonDoc ledger2)) overlapping s); [|exact Hs].
  intros db [= <-] i d Hi Hun.
  destruct i as [|[|i]]; simpl in Hi; [|reflexivity|discriminate Hi].
  injection Hi as <-. exfalso. apply (Hun ticketB); [by left|reflexivity].
Defined.

Lemma answered_after_stored_witness :
  ∃ s r,
    run cfg0 overlapping (boot (mkDisk (Some (JsonDoc ledger1)) [])) = Some s
    ∧ tasks s !! 0%nat = Some (BuyTicket alice env1, Done r)
    ∧ status r = 201%nat
    ∧ announcedIn (written (sdisk s)) r.
Proof.
  destruct (run cfg0 overlapping (boot (mkDisk (Some (JsonDoc ledger1)) []))) as [s|] eqn:Hs;
    [|vm_compute in Hs; discriminate Hs].
  assert (∃ r, tasks s !! 0%nat = Some (BuyTicket alice env1, Done r) ∧ status r = 201%nat)
    as (r & Hr & Hst).
  { assert (Hs' := Hs). vm_compute in Hs'. apply (inj Some) in Hs'. subst s.
    eexists. split; reflexivity. }
  exists s, r. split_and!; [reflexivity|exact Hr|exact Hst|].
  exact (answered_after_stored cfg0 _ overlapping s 0%nat _ r Hs Hr).
Defined.

Lemma myTickets_lists_own_tickets_witness :
  ∃ p l paged,
    exec (myTickets alice (Some 1) None) (world ledger1)
    = (Returned (mkReply 200 (VTickets p l 1 paged)), world ledger1)
    ∧ paged = [ticketA].
Proof.
  destruct (myTickets_lists_own_tickets alice "alice" (Some 1) None (world ledger1)
              eq_refl ltac:(discriminate))
    as (p & l & paged & Hex & _ & _ & Hpaged & _).
  exists p, l, paged. split; [exact Hex|].
  rewrite Hpaged. vm_compute in Hex. injection Hex as <- <- _. reflexivity.
Defined.

Lemma myTickets_pages_cover_witness :
  ticketsOf (exec (myTickets bob (Some 1) (Some 1)) (world ledger1)).1
  ++ ticketsOf (exec (myTickets bob (Some 2) (Some 1)) (world ledger1)).1
  = [ticketB].
Proof.
  pose proof (myTickets_pages_cover bob "bob" 1 2 (world ledger1)
                eq_refl ltac:(discriminate) ltac:(lia)) as H.
  rewrite <- (app_nil_r (ticketsOf (exec (myTickets bob (Some 2) (Some 1)) (world ledger1)).1)).
  exact H.
Defined.

Lemma results_only_own_tickets_witness :
  exec (results bob "d-9") (world ledger1)
  = (Returned (mkReply 404 (VError "Draw not found.")), world ledger1)
  ∧ ∃ rows,
      exec (results bob "d-0") (world ledger1)
      = (Returned (mkReply 200 (VResults draw0 rows)), world ledger1)
      ∧ Row.ticketId <$> rows = ["t-b"].
Proof.
  destruct (results_only_own_tickets bob "bob" "d-9" (world ledger1)
              eq_refl ltac:(discriminate)) as [H404 _].
  destruct (results_only_own_tickets bob "bob" "d-0" (world ledger1)
              eq_refl ltac:(discriminate)) as [_ H200].
  split.
  - apply H404. intros d Hd. members Hd. discriminate.
  - destruct H200 as (draw & rows & Hex & _ & _ & _ & Hids).
    { exists draw0. split; [by left|reflexivity]. }
    exists rows. split; [|exact Hids].
    assert (Hex' := Hex). vm_compute in Hex'. injection Hex' as <- _. exact Hex.
Defined.

Lemma jackpot_iff_same_numbers_witness :
  Row.prize (detail draw0 (Ticket.mk "t" "bob" [3; 8; 19; 27; 33; 44] (Some "d-0") "")) = "Jackpot!"
  ∧ Row.prize (detail draw0 ticketA) ≠ "Jackpot!".
Proof.
  split.
  - apply (jackpot_iff_same_numbers draw0
             (Ticket.mk "t" "bob" [3; 8; 19; 27; 33; 44] (Some "d-0") ""));
      [simpl; numbers_valid..|reflexivity].
  - intros H. apply (jackpot_iff_same_numbers draw0 ticketA) in H;
      [discriminate H|simpl; numbers_valid..].
Defined.

Lemma listDraws_newest_first_witness :
  exec (listDraws clock) (world ledger2)
  = (Returned (mkReply 200 (VDraws [drawOpen; draw0])), world ledger2).
Proof.
  destruct (listDraws_newest_first clock (world ledger2)) as (sorted & Hex & _).
  - intros d Hd. members Hd; by eexists.
  - rewrite Hex. vm_compute in Hex. injection Hex as <-. reflexivity.
Defined.

Lemma purchases_in_turn_all_kept_witness :
  ∃ t1 t2 t3,
    loaded (buyInTurn (configFromEnv None (Some 2)) threeRequests (world ledger3))
    = mkDB [draw0] [ticketB; t1; t2; t3]
    ∧ Ticket.userId <$> [t1; t2; t3] = ["bob"; "bob"; "alice"].
Proof.
  destruct (mapM bought threeRequests) as [new|] eqn:Hnew;
    [|vm_compute in Hnew; discriminate Hnew].
  destruct (purchases_in_turn_all_kept (configFromEnv None (Some 2)) threeRequests new
              (world ledger3)) as [_ Hl].
  - by split_and!.
  - exact Hnew.
  - vm_compute in Hnew. apply (inj Some) in Hnew. subst new. vm_compute. discriminate.
  - intros uid. vm_compute in Hnew. apply (inj Some) in Hnew. subst new.
    assert (MAX_TICKETS_PER_USER (configFromEnv None (Some 2)) = 2) as -> by reflexivity.
    unfold pendingCountOf. cbn -[String.eqb Z.of_nat].
    destruct (String.eqb_spec "bob" uid) as [<-|_]; [vm_compute; discriminate|].
    destruct (String.eqb "alice" uid); simpl; lia.
  - vm_compute in Hnew. apply (inj Some) in Hnew. subst new.
    eexists _, _, _. split; [exact Hl|reflexivity].
Defined.

Lemma purchase_accepted_after_draw_witness :
  ∃ w1 w2 t,
    exec (draw root env1) (world ledger1) = (Returned (res_draw (Draw.mk "id-1" [1; 8; 17; 25; 33; 49] (now env1))), w1)
    ∧ pendingCount (loaded w1) = 0%nat
    ∧ exec (buyTicket cfg0 alice env2) w1 = (Returned (res_ticket t), w2).
Proof.
  destruct (exec (draw root env1) (world ledger1)) as [out w1] eqn:Hex.
  assert (out = Returned (res_draw (Draw.mk "id-1" [1; 8; 17; 25; 33; 49] (now env1)))) as ->.
  { assert (Hex' := Hex). vm_compute in Hex'. by injection Hex' as <- _. }
  destruct (purchase_accepted_after_draw cfg0 root env1 (world ledger1) _ w1
              alice "alice" env2 [1; 8; 17; 25; 33; 49] Hex)
    as (Hzero & w2 & db2 & Hbuy & _); try reflexivity; try discriminate.
  eexists w1, w2, _. split_and!; [reflexivity|exact Hzero|exact Hbuy].
Defined.

Lemma purchase_shows_in_listing_witness :
  ∃ w1 t,
    exec (buyTicket cfg0 alice env2) (world ledger1) = (Returned (res_ticket t), w1)
    ∧ exec (myTickets alice None (Some 5)) w1
      = (Returned (mkReply 200 (VTickets 1 5 2 [ticketA; t])), w1).
Proof.
  destruct (exec (buyTicket cfg0 alice env2) (world ledger1)) as [out w1] eqn:Hex.
  assert (∃ t, out = Returned (res_ticket t)) as [t0 ->].
  { assert (Hex' := Hex). vm_compute in Hex'. injection Hex' as <- _. by eexists. }
  destruct (purchase_shows_in_listing cfg0 alice env2 (world ledger1) _ w1 Hex)
    as (uid & t & Hid & Hr & Hlist & _); try reflexivity.
  injection Hid as <-. injection Hr as ->.
  exists w1, t. split; [reflexivity|].
  apply (Hlist 5). vm_compute. reflexivity.
Defined.

Lemma results_after_draw_witness :
  ∃ w1 newDraw,
    exec (draw root env1) (world ledger1) = (Returned (res_draw newDraw), w1)
    ∧ exec (results alice "id-1") w1
      = (Returned (mkReply 200 (VResults newDraw [detail newDraw ticketA])), w1).
Proof.
  destruct (exec (draw root env1) (world ledger1)) as [out w1] eqn:Hex.
  assert (∃ d, out = Returned (res_draw d)) as [d0 ->].
  { assert (Hex' := Hex). vm_compute in Hex'. injection Hex' as <- _. by eexists. }
  destruct (results_after_draw root env1 (world ledger1) _ w1 alice "alice" Hex)
    as (newDraw & Hr & _ & Hres); try reflexivity; try discriminate.
  - intros d Hd. members Hd. discriminate.
  - intros t Ht. members Ht; discriminate.
  - injection Hr as ->. exists w1, newDraw. split; [reflexivity|exact Hres].
Defined.

(* ------------------------------------------------------------------ *)
(** ** The routes of the lottery *)

Lemma authenticate_status jwt_verify req st error :
  authenticate jwt_verify req = inl (st, error) → st = 401%nat ∨ st = 403%nat.
Proof.
  unfold authenticate. intros H.
  destruct (session req) as [s|]; [destruct (truthy (Session.userId s)); [done|]|];
    destruct (negb (truthy (bearer (authorization req))));
    try destruct (jwt_verify _); simplify_eq; auto.
Qed.

(** The session is looked at first: with a user id in it, the token is not
    read. *)
Lemma authenticate_session jwt_verify req s :
  session req = Some s → truthy (Session.userId s) = true →
  authenticate jwt_verify req
  = inr (User.mk (Session.userId s) (Session.role s) (Session.email s)).
Proof. unfold authenticate. by intros -> ->. Qed.

(** X16.  The route [POST /draw] ([authenticate], [adminOnly], [draw]): either
    the caller is authenticated as a user [isAdmin] accepts and the route
    behaves as [draw] for that user, or the answer is 401 or 403 and the
    world is left as it is.  A caller the route guard lets through on the
    e-mail suffix alone is stopped by the handler's own check. *)
Theorem post_draw_reaches_ledger_only_for_admins jwt_verify req env w :
  (∃ user, authenticate jwt_verify req = inr user
           ∧ isAdmin (Some user) = true
           ∧ exec (post_draw jwt_verify req env) w = exec (draw (Some user) env) w)
  ∨ (∃ st error,
       exec (post_draw jwt_verify req env) w = (Returned (mkRes st (JError error)), w)
       ∧ (st = 401%nat ∨ st = 403%nat)).
Proof.
  unfold post_draw.
  destruct (authenticate jwt_verify req) as [[st error]|user] eqn:Hauth.
  - right. exists st, error. split; [done|]. by eapply authenticate_status.
  - destruct (adminOnly (Some user)) eqn:Hguard; simpl.
    + destruct (isAdmin (Some user)) eqn:Hadmin.
      * left. by exists user.
      * right. exists 403%nat, "Admin privileges required.". split; [|by right].
        unfold draw. by rewrite Hadmin.
    + right. eexists _, _. split; [done|by right].
Qed.

(** X17.  Whenever the route [GET /tickets] ([authenticate], [myTickets])
    answers 200, the request was authenticated as a user with an id (the
    session's [userId] when the session has one, whatever token is sent
    along), every ticket listed is a ticket of the ledger bought under that
    id, and the world is left as it is. *)
Theorem get_tickets_lists_only_own jwt_verify req page limit w p l n ts w' :
  exec (get_tickets jwt_verify req page limit) w
  = (Returned (mkReply 200 (VTickets p l n ts)), w') →
  ∃ user uid,
    authenticate jwt_verify req = inr user ∧ User.id user = Some uid
    ∧ (∀ s, session req = Some s → truthy (Session.userId s) = true →
            Session.userId s = Some uid)
    ∧ w' = w
    ∧ n = length (ticketsOfUser uid (loaded w))
    ∧ ∀ t, t ∈ ts → t ∈ tickets (loaded w) ∧ Ticket.userId t = uid.
Proof.
  unfold get_tickets. intros Hex.
  destruct (authenticate jwt_verify req) as [[st error]|user] eqn:Hauth; [done|].
  destruct (truthy (Some user ≫= User.id)) eqn:Hty;
    [|by unfold myTickets in Hex; rewrite Hty in Hex].
  apply truthy_spec in Hty as (uid & Hid' & Hne).
  assert (User.id user = Some uid) as Hid by done.
  rewrite (exec_myTickets _ _ _ _ _ Hid' Hne) in Hex. simplify_eq.
  exists user, uid. split_and!; try done.
  - intros s Hs Hty. rewrite (authenticate_session _ _ _ Hs Hty) in Hauth.
    by simplify_eq.
  - intros t Ht. apply ticketsOfUser_owned.
    by apply subseteq_take, subseteq_drop in Ht.
Qed.

(** X18.  Whenever the route [GET /results/:drawId] ([authenticate],
    [results]) answers 200, the request was authenticated as a user with an
    id, the draw shown is a draw of the ledger with the id asked for, and
    every row is computed from a ticket of that user assigned to it. *)
Theorem get_results_shows_only_own jwt_verify req drawId w d rows w' :
  exec (get_results jwt_verify req drawId) w
  = (Returned (mkReply 200 (VResults d rows)), w') →
  ∃ user uid,
    authenticate jwt_verify req = inr user ∧ User.id user = Some uid
    ∧ w' = w
    ∧ d ∈ draws (loaded w) ∧ Draw.id d = drawId
    ∧ ∀ row, row ∈ rows →
        ∃ t, t ∈ tickets (loaded w) ∧ Ticket.userId t = uid
             ∧ Ticket.drawId t = Some drawId ∧ row = detail d t.
Proof.
  unfold get_results. intros Hex.
  destruct (authenticate jwt_verify req) as [[st error]|user] eqn:Hauth; [done|].
  destruct (truthy (Some user ≫= User.id)) eqn:Hty;
    [|by unfold results in Hex; rewrite Hty in Hex].
  apply truthy_spec in Hty as (uid & Hid' & Hne).
  assert (User.id user = Some uid) as Hid by done.
  rewrite (exec_results _ _ _ _ Hid' Hne) in Hex.
  destruct (List.find _ _) as [d'|] eqn:Hfind; [|done]. simplify_eq.
  apply find_some in Hfind as [Hin Hdid%String.eqb_eq].
  exists user, uid. split_and!; try done; [by apply list_elem_of_In|].
  intros row (t & -> & Ht)%list_elem_of_fmap.
  apply list_elem_of_In, filter_In in Ht as [Ht [Hu Hd]%andb_prop].
  exists t. split_and!; [by apply list_elem_of_In|by apply String.eqb_eq|
                        by apply bool_decide_eq_true in Hd|done].
Qed.

Lemma post_draw_reaches_ledger_only_for_admins_witness :
  (∃ st error,
     exec (post_draw verify0 tokenRequest env1) (world ledger1)
     = (Returned (mkRes st (JError error)), world ledger1))
  ∧ ∃ d w1,
      exec (post_draw verify0 (mkReq (Some (Session.mk (Some "root") None (Some "admin") None)) None)
              env1) (world ledger1)
      = (Returned (res_draw d), w1).
Proof.
  split.
  - destruct (post_draw_reaches_ledger_only_for_admins verify0 tokenRequest env1 (world ledger1))
      as [(user & Hauth & Hadmin & _)|(st & error & Hex & _)].
    + vm_compute in Hauth. injection Hauth as <-. discriminate Hadmin.
    + by exists st, error.
  - destruct (post_draw_reaches_ledger_only_for_admins verify0
                (mkReq (Some (Session.mk (Some "root") None (Some "admin") None)) None)
                env1 (world ledger1))
      as [(user & Hauth & _ & Hex)|(st & error & Hex & _)].
    + rewrite Hex. vm_compute in Hauth. injection Hauth as <-.
      eexists _, _. vm_compute. reflexivity.
    + vm_compute in Hex. discriminate Hex.
Defined.

Lemma get_tickets_lists_only_own_witness :
  ∃ ts, exec (get_tickets verify0 mixedRequest None None) (world ledger1)
        = (Returned (mkReply 200 (VTickets 1 20 1 ts)), world ledger1)
        ∧ ∀ t, t ∈ ts → Ticket.userId t = "alice".
Proof.
  exists [ticketA]. split; [reflexivity|].
  destruct (get_tickets_lists_only_own verify0 mixedRequest None None (world ledger1)
              1 20 1%nat [ticketA] (world ledger1) eq_refl)
    as (user & uid & _ & _ & Hsession & _ & _ & Hown).
  specialize (Hsession aliceSession eq_refl eq_refl). injection Hsession as <-.
  intros t Ht. by apply Hown.
Defined.

Lemma get_results_shows_only_own_witness :
  ∃ rows, exec (get_results verify0 tokenRequest "d-0") (world ledger1)
          = (Returned (mkReply 200 (VResults draw0 rows)), world ledger1)
          ∧ ∀ row, row ∈ rows →
              ∃ t, t ∈ tickets ledger1 ∧ Ticket.userId t = "bob" ∧ row = detail draw0 t.
Proof.
  exists [detail draw0 ticketB]. split; [reflexivity|].
  destruct (get_results_shows_only_own verify0 tokenRequest "d-0" (world ledger1)
              draw0 [detail draw0 ticketB] (world ledger1) eq_refl)
    as (user & uid & Hauth & Hid & _ & _ & _ & Hrows).
  vm_compute in Hauth. injection Hauth as <-. injection Hid as <-.
  intros row Hrow. destruct (Hrows row Hrow) as (t & Ht & Hu & _ & ->). by exists t.
Defined.

(* ------------------------------------------------------------------ *)
(** ** Sliding expiration *)

(** X19.  For a session whose cookie has numeric [maxAge] and [_expires],
    [refreshSession] touches the session exactly when the session has a
    user id and the expiry time lies at least [maxAge / 2] in the past.  A
    session that has not yet expired (with a positive [maxAge]) is never
    touched. *)
Theorem refreshSession_only_after_expiry now s cookie maxAge expires :
  Session.cookie s = Some cookie →
  Cookie.maxAge cookie = Some maxAge →
  Cookie._expires cookie = Some expires →
  (refreshSession now (Some s) = true
   ↔ truthy (Session.userId s) = true ∧ maxAge ≤ 2 * (now - expires))
  ∧ (0 < maxAge → now ≤ expires → refreshSession now (Some s) = false).
Proof.
  intros Hc Hm He.
  assert (refreshSession now (Some s) = true
          ↔ truthy (Session.userId s) = true ∧ maxAge ≤ 2 * (now - expires)) as Hiff.
  { unfold refreshSession. rewrite Hc, Hm, He.
    destruct (truthy (Session.userId s)); [|by split; [|intros [? _]]].
    cbv zeta. rewrite Qle_bool_iff.
    unfold toNumber, Qle, Qplus, Qminus, Qopp, Qdiv, Qmult, Qinv, inject_Z. simpl.
    split; [intros H; split; [done|lia]|intros [_ H]; lia]. }
  split; [exact Hiff|].
  intros Hpos Hlive. apply not_true_is_false. rewrite Hiff. intros [_ H]. lia.
Qed.

Lemma refreshSession_only_after_expiry_witness :
  refreshSession 1714478400000 (Some aliceSession) = false
  ∧ refreshSession 1714480200000 (Some aliceSession) = true.
Proof.
  destruct (refreshSession_only_after_expiry 1714478400000 aliceSession
              (Cookie.mk (Some 3600000) (Some 1714478400000)) 3600000 1714478400000
              eq_refl eq_refl eq_refl) as [_ Hlive].
  destruct (refreshSession_only_after_expiry 1714480200000 aliceSession
              (Cookie.mk (Some 3600000) (Some 1714478400000)) 3600000 1714478400000
              eq_refl eq_refl eq_refl) as [Hiff _].
  split; [apply Hlive; lia|]. apply Hiff. split; [reflexivity|lia].
Defined.

(* ------------------------------------------------------------------ *)
(** ** The user store *)

Lemma exec_loadUsers_bind {A} (k : list Users.t → Users.prog A) w :
  Users.exec (Users.loadUsers ≫= k) w = Users.exec (k (Users.loaded w)) w.
Proof.
  unfold Users.loaded. simpl.
  destruct (Users.fs_readFile (Users.readFault w) (Users.disk w)) as [e|[|[users|]]]; simpl;
    try done.
  destruct e as [code|]; simpl; [|done].
  by destruct (String.eqb code "ENOENT").
Qed.

(** The store reads as empty when the file cannot be read, is missing, does
    not parse or holds something that is not an array. *)
Lemma loaded_users_Some w users :
  Users.readFault w = None →
  Users.file (Users.disk w) = Some (Users.Json (Users.Array users)) →
  Users.loaded w = users.
Proof. unfold Users.loaded, Users.fs_readFile. by intros -> ->. Qed.

Lemma filter_length_eq {A} (f : A → bool) (l : list A) :
  length (List.filter f l) = length l ↔ Forall (λ x, f x = true) l.
Proof.
  induction l as [|x l IH]; simpl; [by split; [constructor|]|].
  pose proof (List.filter_length_le f l) as Hle.
  destruct (f x) eqn:Hx; simpl.
  - rewrite Forall_cons. split; [intros [= H]; split; [done|by apply IH]|].
    intros [_ H]. f_equal. by apply IH.
  - split; [lia|]. intros [H _]%Forall_cons. congruence.
Qed.

Lemma other_id_true (u : Users.t) id :
  negb (String.eqb (Users.id u) id) = true ↔ Users.id u ≠ id.
Proof. by rewrite negb_true_iff, String.eqb_neq. Qed.

Lemma canDelete_spec requester id :
  isAdmin requester
  || match requester with
     | None => false
     | Some r => bool_decide (User.id r = Some id)
     end = true
  ↔ isAdmin requester = true ∨ ∃ r, requester = Some r ∧ User.id r = Some id.
Proof.
  rewrite orb_true_iff. split; (intros [?|H]; [by left|right]).
  - destruct requester as [r|]; [|done]. apply bool_decide_eq_true in H. eauto.
  - destruct H as (r & -> & H). by apply bool_decide_eq_true.
Qed.

Lemma exec_deleteUser requester session id w :
  isAdmin requester = true ∨ (∃ r, requester = Some r ∧ User.id r = Some id) →
  Users.exec (Users.deleteUser requester session id) w
  = let users := Users.loaded w in
    let filtered := List.filter (λ u, negb (String.eqb (Users.id u) id)) users in
    if bool_decide (length filtered = length users) then
      (Users.Returned (Users.mkReply 404 (Users.BError "User not found.") false), w)
    else
      Users.exec
        (Users.writeDBAtomic filtered;;
         Users.Ret (Users.mkReply 200 (Users.BMessage "User deleted.")
                      match session with
                      | None => false
                      | Some s => bool_decide (Session.userId s = Some id)
                      end)) w.
Proof.
  intros Hcan%canDelete_spec. unfold Users.deleteUser. cbv zeta. rewrite Hcan. cbn [negb].
  rewrite exec_loadUsers_bind. cbv zeta. by destruct (bool_decide _).
Qed.

(** X20.  [deleteUser] for an administrator or the owner, with nothing in the
    way of the write: 404 and no change when no loaded record has the id;
    otherwise 200 and the stored array is the loaded one without the records
    of that id, the others kept in their order; the session is destroyed
    exactly when it is the deleted user's. *)
Theorem deleteUser_removes_exactly requester session id w :
  isAdmin requester = true ∨ (∃ r, requester = Some r ∧ User.id r = Some id) →
  Users.writable w →
  let users := Users.loaded w in
  let rest := List.filter (λ u, negb (String.eqb (Users.id u) id)) users in
  (Forall (λ u, Users.id u ≠ id) users →
   Users.exec (Users.deleteUser requester session id) w
   = (Users.Returned (Users.mkReply 404 (Users.BError "User not found.") false), w))
  ∧ (Exists (λ u, Users.id u = id) users →
     ∃ destroyed,
       Users.exec (Users.deleteUser requester session id) w
       = (Users.Returned (Users.mkReply 200 (Users.BMessage "User deleted.") destroyed),
          Users.mkWorld
            (Users.mkDisk (Some (Users.Json (Users.Array rest)))
                          (Users.written (Users.disk w) ++ [rest]))
            Fulfilled (Users.readFault w) None)
       ∧ (destroyed = true ↔ ∃ s, session = Some s ∧ Session.userId s = Some id)
       ∧ Forall (λ u, Users.id u ≠ id) rest
       ∧ rest `sublist_of` users
       ∧ ∀ u, u ∈ users → Users.id u ≠ id → u ∈ rest).
Proof.
  intros Hcan [Hpw Hwf] users rest.
  rewrite (exec_deleteUser _ _ _ _ Hcan). fold users. fold rest. cbv zeta. split.
  - intros Hnone. rewrite bool_decide_eq_true_2; [done|].
    apply filter_length_eq. eapply Forall_impl; [exact Hnone|].
    intros u Hu. by apply other_id_true.
  - intros Hsome. rewrite bool_decide_eq_false_2.
    + eexists. split_and!.
      * simpl. rewrite Hpw, Hwf. simpl. reflexivity.
      * destruct session as [s|]; [|by split; [|intros (? & ? & ?)]].
        rewrite bool_decide_eq_true. split; [eauto|]. by intros (? & [= <-] & ?).
      * apply Forall_forall. intros u Hu%list_elem_of_In%filter_In.
        apply other_id_true, Hu.
      * unfold rest. clear. induction users as [|u us IH]; simpl; [done|].
        destruct (negb _); [by apply sublist_skip|by apply sublist_cons].
      * intros u Hu Hne. apply list_elem_of_In, filter_In. split; [by apply list_elem_of_In|].
        by apply other_id_true.
    + rewrite filter_length_eq. intros Hall.
      apply Exists_exists in Hsome as (u & Hu & Hid).
      rewrite Forall_forall in Hall. specialize (Hall u Hu). by apply other_id_true in Hall.
Qed.

Lemma deleteUser_removes_exactly_witness :
  Users.exec (Users.deleteUser asDave (Some daveSession) "dave") (uworld registry)
  = (Users.Returned (Users.mkReply 200 (Users.BMessage "User deleted.") true),
     Users.mkWorld (Users.mkDisk (Some (Users.Json (Users.Array [erin; frank]))) [[erin; frank]])
                   Fulfilled None None)
  ∧ Users.exec (Users.deleteUser asErin None "zoe") (uworld registry)
    = (Users.Returned (Users.mkReply 404 (Users.BError "User not found.") false),
       uworld registry).
Proof.
  split.
  - destruct (deleteUser_removes_exactly asDave (Some daveSession) "dave" (uworld registry))
      as [_ H200].
    + right. by eexists.
    + by split.
    + destruct H200 as (destroyed & Hex & Hd & _).
      * apply Exists_cons_hd. reflexivity.
      * rewrite Hex. assert (destroyed = true) as -> by (apply Hd; by eexists).
        reflexivity.
  - destruct (deleteUser_removes_exactly asErin None "zoe" (uworld registry)) as [H404 _].
    + by left.
    + by split.
    + apply H404. repeat constructor; discriminate.
Defined.

Lemma exec_getUser requester id w :
  Users.exec (Users.getUser requester id) w
  = (Users.Returned
       (if match requester with
           | None => true
           | Some r => Users.another r id && negb (isAdmin requester)
           end
        then Users.mkReply 403 (Users.BError "Access denied.") false
        else
          match List.find (λ u, String.eqb (Users.id u) id) (Users.loaded w) with
          | None => Users.mkReply 404 (Users.BError "User not found.") false
          | Some user => Users.mkReply 200 (Users.BUser (Users.withoutHash user)) false
          end), w).
Proof.
  unfold Users.getUser.
  destruct (match requester with None => true | Some r => _ end); [done|].
  rewrite exec_loadUsers_bind. by destruct (List.find _ _).
Qed.

(** X22.  Whenever [getUser] answers 200, the requester is the owner of the
    id or an administrator, and the record sent is a stored record of that
    id without its [passwordHash]; the world is left as it is. *)
Theorem getUser_discloses_only_to_owner_or_admin requester id w s destroyed w' :
  Users.exec (Users.getUser requester id) w
  = (Users.Returned (Users.mkReply 200 (Users.BUser s) destroyed), w') →
  (∃ r, requester = Some r ∧ (User.id r = Some id ∨ isAdmin requester = true))
  ∧ Users.safe_id s = id
  ∧ (∃ u, u ∈ Users.loaded w ∧ s = Users.withoutHash u)
  ∧ destroyed = false ∧ w' = w.
Proof.
  rewrite exec_getUser. intros Hex.
  destruct requester as [r|]; [|done].
  destruct (Users.another r id && negb (isAdmin (Some r))) eqn:Hden; [done|].
  destruct (List.find _ _) as [u|] eqn:Hfind; [|done]. simplify_eq.
  apply find_some in Hfind as [Hin Hid%String.eqb_eq].
  split_and!; try done.
  - exists r. split; [done|]. apply andb_false_iff in Hden as [H|H].
    + left. unfold Users.another in H. apply negb_false_iff in H.
      by apply bool_decide_eq_true in H.
    + right. by apply negb_false_iff in H.
  - exists u. split; [by apply list_elem_of_In|done].
Qed.

Lemma getUser_discloses_only_to_owner_or_admin_witness :
  Users.exec (Users.getUser asDave "dave") (uworld registry)
  = (Users.Returned (Users.mkReply 200 (Users.BUser (Users.withoutHash dave)) false),
     uworld registry)
  ∧ ∃ r, asDave = Some r ∧ (User.id r = Some "dave" ∨ isAdmin asDave = true).
Proof.
  split; [reflexivity|].
  apply (getUser_discloses_only_to_owner_or_admin asDave "dave" (uworld registry)
           (Users.withoutHash dave) false (uworld registry) eq_refl).
Defined.





(** X25.  When [data/users.json] cannot be read, is missing, does not parse
    or holds something that is not an array, an administrator gets 404 from
    [getUser] and [deleteUser] and an empty listing with [totalUsers] 0 from
    [listUsers], and nothing is written. *)
Theorem unreadable_user_store_reads_as_empty admin session id page limit w :
  isAdmin admin = true →
  (∀ users, Users.readFault w = None →
            Users.file (Users.disk w) ≠ Some (Users.Json (Users.Array users))) →
  Users.exec (Users.getUser admin id) w
  = (Users.Returned (Users.mkReply 404 (Users.BError "User not found.") false), w)
  ∧ Users.exec (Users.deleteUser admin session id) w
    = (Users.Returned (Users.mkReply 404 (Users.BError "User not found.") false), w)
  ∧ ∃ p l, Users.exec (Users.listUsers admin page limit) w
           = (Users.Returned (Users.mkReply 200 (Users.BUsers p l 0 []) false), w).
Proof.
  intros Hadmin Hunread.
  assert (Users.loaded w = []) as Hl.
  { unfold Users.loaded, Users.fs_readFile.
    destruct (Users.readFault w) eqn:Hrf; [done|].
    destruct (Users.file (Users.disk w)) as [[|[users|]]|] eqn:Hf; try done.
    by destruct (Hunread users). }
  split_and!.
  - rewrite exec_getUser, Hl. destruct admin as [r|]; [|done].
    by rewrite Hadmin, andb_false_r.
  - rewrite exec_deleteUser by (by left). by rewrite Hl.
  - unfold Users.listUsers. rewrite Hadmin. cbn [negb].
    rewrite exec_loadUsers_bind, Hl. cbv zeta. eexists _, _.
    unfold slice. by rewrite drop_nil, take_nil.
Qed.

Lemma unreadable_user_store_reads_as_empty_witness :
  Users.exec (Users.getUser asErin "dave")
    (Users.mkWorld (Users.mkDisk (Some (Users.Json (Users.Array registry))) [])
                   Fulfilled (Some "EACCES") None)
  = (Users.Returned (Users.mkReply 404 (Users.BError "User not found.") false),
     Users.mkWorld (Users.mkDisk (Some (Users.Json (Users.Array registry))) [])
                   Fulfilled (Some "EACCES") None).
Proof.
  apply (unreadable_user_store_reads_as_empty asErin None "dave" None None
           (Users.mkWorld (Users.mkDisk (Some (Users.Json (Users.Array registry))) [])
                          Fulfilled (Some "EACCES") None)).
  - reflexivity.
  - intros users Hrf. discriminate Hrf.
Defined.

Lemma listUsers_page admin (perPage n : nat) w :
  isAdmin admin = true → (1 ≤ perPage)%nat →
  usersOf (Users.exec (Users.listUsers admin (Some (Z.of_nat (S n)))
                         (Some (Z.of_nat perPage))) w).1
  = Users.withoutHash <$> take perPage (drop (n * perPage) (Users.loaded w)).
Proof.
  intros Hadmin Hper. unfold Users.listUsers. rewrite Hadmin. cbn [negb].
  rewrite exec_loadUsers_bind. cbv zeta. cbn [Users.exec fst usersOf].
  assert (parsedOr (Some (Z.of_nat perPage)) 20 = Z.of_nat perPage) as ->
    by (destruct perPage; [lia|done]).
  assert (parsedOr (Some (Z.of_nat (S n))) 1 = Z.of_nat (S n)) as -> by done.
  rewrite !Z.max_r by lia.
  rewrite slice_window by lia.
  replace (Z.to_nat ((Z.of_nat (S n) - 1) * Z.of_nat perPage)) with (n * perPage)%nat by lia.
  by rewrite Nat2Z.id.
Qed.

(** X24.  With a page size of at least 1: for an administrator, pages 1 to
    [n] of [listUsers], one after the other, are the first [n * perPage]
    stored records without their [passwordHash]; anyone else gets 403 for
    every page. *)
Theorem listUsers_pages_cover admin (perPage n : nat) w :
  (1 ≤ perPage)%nat →
  (isAdmin admin = true →
   mjoin ((λ p, usersOf
                  (Users.exec (Users.listUsers admin (Some (Z.of_nat p))
                                 (Some (Z.of_nat perPage))) w).1)
          <$> seq 1 n)
   = Users.withoutHash <$> take (n * perPage) (Users.loaded w))
  ∧ (isAdmin admin = false →
     ∀ page limit,
       Users.exec (Users.listUsers admin page limit) w
       = (Users.Returned (Users.mkReply 403 (Users.BError "Admin privileges required.") false),
          w)).
Proof.
  intros Hper. split.
  - intros Hadmin. induction n as [|n IH]; [done|].
    rewrite seq_S, fmap_app, join_app, IH, join_fmap_singleton.
    change (1 + n)%nat with (S n).
    rewrite (listUsers_page _ _ _ _ Hadmin Hper), <- fmap_app, take_take_drop.
    do 2 f_equal. lia.
  - intros Hno page limit. unfold Users.listUsers. by rewrite Hno.
Qed.

Lemma listUsers_pages_cover_witness :
  usersOf (Users.exec (Users.listUsers asErin (Some 1) (Some 2)) (uworld registry)).1
  ++ usersOf (Users.exec (Users.listUsers asErin (Some 2) (Some 2)) (uworld registry)).1
  = Users.withoutHash <$> registry.
Proof.
  destruct (listUsers_pages_cover asErin 2 2 (uworld registry) ltac:(lia)) as [H _].
  specialize (H eq_refl).
  rewrite <- (app_nil_r (usersOf (Users.exec (Users.listUsers asErin (Some 2) (Some 2))
                                    (uworld registry)).1)).
  exact H.
Defined.

(** X23.  Whenever [updateUser] answers 200, the requester is the owner or an
    administrator, and the stored array is the loaded one with the first
    record of that id replaced: the new record keeps [id] and [createdAt],
    has the new [updatedAt], keeps its [role] unless the requester is an
    administrator, and keeps its [passwordHash] unless a password was sent. *)
Theorem updateUser_changes_one_record test_email trim toLowerCase
    requester id body hash now w r w1 :
  Users.exec (Users.updateUser test_email trim toLowerCase requester id body hash now) w
  = (Users.Returned r, w1) →
  Users.code r = 200%nat →
  ∃ idx old new,
    Users.loaded w !! idx = Some old ∧ Users.id old = id
    ∧ (∀ j u, (j < idx)%nat → Users.loaded w !! j = Some u → Users.id u ≠ id)
    ∧ Users.file (Users.disk w1)
      = Some (Users.Json (Users.Array (<[idx := new]> (Users.loaded w))))
    ∧ r = Users.mkReply 200 (Users.BUser (Users.withoutHash new)) false
    ∧ Users.id new = id
    ∧ Users.createdAt new = Users.createdAt old
    ∧ Users.updatedAt new = Some now
    ∧ (isAdmin requester = false → Users.role new = Users.role old)
    ∧ (truthy (Users.Patch.password body) = false →
       Users.passwordHash new = Users.passwordHash old)
    ∧ ∃ rq, requester = Some rq ∧ (User.id rq = Some id ∨ isAdmin requester = true).
Proof.
  unfold Users.updateUser. intros Hex Hcode.
  destruct requester as [rq|]; [|by simpl in Hex; simplify_eq].
  destruct (Users.another rq id && negb (isAdmin (Some rq))) eqn:Hden; [by simpl in Hex; simplify_eq|].
  rewrite exec_loadUsers_bind in Hex.
  destruct (list_find _ _) as [[idx old]|] eqn:Hfind; [|by simpl in Hex; simplify_eq].
  apply list_find_Some in Hfind as (Hidx & Hid & Hfirst).
  destruct (truthy (Users.Patch.email body) && _); [by simpl in Hex; simplify_eq|].
  destruct (truthy (Users.Patch.password body) && _); [by simpl in Hex; simplify_eq|].
  cbv zeta in Hex. simpl in Hex.
  destruct (Users.pendingWrite w); simpl in Hex; [|done].
  destruct (Users.writeFault w); simpl in Hex; [done|].
  injection Hex as <- <-. simpl.
  eexists idx, old, _. split_and!; try done.
  - intros j u Hj Hu. by apply (Hfirst j u).
  - intros Hno. by rewrite Hno, andb_false_r.
  - unfold Users.over. by intros ->.
  - exists rq. split; [done|]. apply andb_false_iff in Hden as [H|H].
    + left. unfold Users.another in H. apply negb_false_iff in H.
      by apply bool_decide_eq_true in H.
    + right. by apply negb_false_iff in H.
Qed.

Lemma updateUser_changes_one_record_witness :
  ∃ new w1,
    Users.exec
      (Users.updateUser (λ _, true) (λ s, s) (λ s, s) asDave "dave"
         (Users.Patch.mk (Some "David") None None (Some "admin")) "" "2024-05-02T08:00:00.000Z")
      (uworld registry)
    = (Users.Returned (Users.mkReply 200 (Users.BUser (Users.withoutHash new)) false), w1)
    ∧ Users.name new = "David"
    ∧ Users.role new = None
    ∧ Users.file (Users.disk w1) = Some (Users.Json (Users.Array [new; erin; frank])).
Proof.
  destruct (Users.exec
              (Users.updateUser (λ _, true) (λ s, s) (λ s, s) asDave "dave"
                 (Users.Patch.mk (Some "David") None None (Some "admin")) ""
                 "2024-05-02T08:00:00.000Z")
              (uworld registry)) as [out w1] eqn:Hex.
  assert (∃ r, out = Users.Returned r ∧ Users.code r = 200%nat
               ∧ ∃ new, r = Users.mkReply 200 (Users.BUser (Users.withoutHash new)) false
                        ∧ Users.name new = "David"
                        ∧ Users.file (Users.disk w1)
                          = Some (Users.Json (Users.Array [new; erin; frank])))
    as (r & -> & Hcode & new0 & Hr0 & Hname & Hfile).
  { assert (Hex' := Hex). vm_compute in Hex'. injection Hex' as <- <-.
    eexists. split_and!; [reflexivity|reflexivity|].
    eexists (Users.mk _ _ _ _ _ _ _). split_and!; reflexivity. }
  destruct (updateUser_changes_one_record _ _ _ _ _ _ _ _ _ _ _ Hex Hcode)
    as (idx & old & new & Hidx & Hid & _ & Hfile' & Hr & _ & _ & _ & Hrole & _).
  exists new0, w1. split_and!; [by rewrite Hr0|exact Hname| |exact Hfile].
  assert (Users.role new0 = Users.role new) as ->.
  { rewrite Hr0 in Hr. by injection Hr as _ _ _ -> _ _. }
  rewrite Hrole by reflexivity.
  destruct idx as [|[|[|idx]]]; vm_compute in Hidx; try discriminate Hidx;
    injection Hidx as <-; [reflexivity|discriminate Hid..].
Defined.

(* ------------------------------------------------------------------ *)
(** ** After a failed write *)

(** X6.  Once a write has failed, whatever requests follow and however they
    are interleaved: the file and the write history stay as they were, the
    write chain stays rejected with the first error, and every request
    answered 201 carries a ticket or draw stored before the failure. *)
Theorem nothing_stored_after_failed_write cfg d e before after s s' :
  run cfg before (boot d) = Some s →
  settledTail s = Rejected e →
  run cfg after s = Some s' →
  sdisk s' = sdisk s
  ∧ settledTail s' = Rejected e
  ∧ ∀ rid o r, tasks s' !! rid = Some (o, Done r) →
               announcedIn (written (sdisk s)) r.
Proof.
  intros Hbefore Hrej Hafter.
  destruct (run_rejected _ _ _ _ _ Hrej Hafter) as [Hrej' Hdisk].
  split_and!; [done|done|].
  intros rid o r Hrid. rewrite <- Hdisk.
  assert (run cfg (before ++ after) (boot d) = Some s') as Hrun
    by (by rewrite run_app, Hbefore).
  apply (ack_tasks _ (run_ack cfg _ _ _ (boot_ack d) Hrun) _ _ _ Hrid).
Qed.

Lemma nothing_stored_after_failed_write_witness :
  ∃ s s',
    run cfg0 failingPurchase (boot (mkDisk (Some (JsonDoc ledger1)) [])) = Some s
    ∧ run cfg0 afterwards s = Some s'
    ∧ sdisk s' = mkDisk (Some (JsonDoc ledger1)) []
    ∧ (snd <$> tasks s')
      = [Failed (FsError "ENOSPC"); Failed (FsError "ENOSPC"); Failed (FsError "ENOSPC")].
Proof.
  destruct (run cfg0 failingPurchase (boot (mkDisk (Some (JsonDoc ledger1)) [])))
    as [s|] eqn:Hs; [|vm_compute in Hs; discriminate Hs].
  destruct (run cfg0 afterwards s) as [s'|] eqn:Hs'.
  - destruct (nothing_stored_after_failed_write cfg0 _ (FsError "ENOSPC")
                failingPurchase afterwards s s' Hs)
      as (Hdisk & _ & _); [|exact Hs'|].
    + vm_compute in Hs. by injection Hs as <-.
    + exists s, s'. split_and!; [reflexivity|exact Hs'| |].
      * rewrite Hdisk. vm_compute in Hs. by injection Hs as <-.
      * vm_compute in Hs. injection Hs as <-. vm_compute in Hs'. by injection Hs' as <-.
  - vm_compute in Hs. injection Hs as <-. vm_compute in Hs'. discriminate Hs'.
Defined.
